(** * Geothermal energy analysis script: a shallow embedding

    This development models [src/geothermal_analysis.py], a script that
    renders six charts from literal data tables, and states the properties
    of its summary statistics, of its chart decorations and of its driver.

    Conventions of the embedding
    - Python [int] is [Z].  Python [float] is modelled by the exact rational
      ([Q]) or real ([R]) number that the binary64 value approximates;
      rounding is not modelled, exceptions are.
    - A Python exception is a value of [exn]; code that may raise returns a
      [result].
    - A figure is the list of artists that the plotting calls add to each
      axes; purely cosmetic keyword arguments (line widths, fonts, alpha)
      are left out.
    - The file system, the console and the state of NumPy's global random
      generator make up the [world] that the plotting functions and the
      driver thread through. *)

From Stdlib Require Import ZArith QArith Qabs Qreals Reals Lra Lia List String Ascii.
From stdpp Require Import base strings gmap list sorting pretty.

Open Scope string_scope.
Open Scope list_scope.

(** ** Python values, exceptions and arithmetic *)

Inductive exn : Set :=
| ZeroDivisionError
| OverflowError
| IndexError
| FileExistsError
| FileNotFoundError
| IsADirectoryError
| ValueError
| NotReal.  (* the interpreter yields a [complex] value, outside this model *)

Definition result (A : Type) : Type := (exn + A)%type.

#[global] Instance result_ret : MRet result := λ A a, inr a.
#[global] Instance result_bind : MBind result :=
  λ A B f m, match m with inl e => inl e | inr a => f a end.
#[global] Instance result_fmap : FMap result :=
  λ A B f m, match m with inl e => inl e | inr a => inr (f a) end.

Definition raise {A : Type} (e : exn) : result A := inl e.

(** Smallest magnitude that no longer rounds to a finite binary64 value:
    [int / int] raises [OverflowError] from there on. *)
Definition dbl_overflow : Q := inject_Z (2 ^ 1024 - 2 ^ 970).

(** [a / b] on two Python ints.  The value is the exact quotient, of which
    the interpreter returns the nearest binary64 number: for ints of
    magnitude up to 2^53 the two have the same sign and are zero together;
    beyond that a tiny quotient may round to [0.0]. *)
Definition int_truediv (a b : Z) : result Q :=
  if (b =? 0)%Z then raise ZeroDivisionError
  else
    let q := (inject_Z a / inject_Z b)%Q in
    if Qle_bool dbl_overflow (Qabs q) then raise OverflowError else mret q.

(** [float(n)], as done implicitly when an int meets a float in an
    arithmetic operation: an int too large for a binary64 value raises. *)
Definition float_of_int (n : Z) : result Q :=
  if Qle_bool dbl_overflow (inject_Z (Z.abs n)) then raise OverflowError
  else mret (inject_Z n).

(** [a / b] on two floats: a zero divisor raises, an overflowing quotient is
    [inf] and does not raise.  An int operand is converted first, with
    [float_of_int]. *)
Definition float_truediv (a b : Q) : result Q :=
  if Qeq_bool b 0 then raise ZeroDivisionError else mret (a / b)%Q.

Definition Qgtb (x y : Q) : bool := negb (Qle_bool x y).

(** [l[i]] with Python's negative indices. *)
Definition py_index {A : Type} (l : list A) (i : Z) : result A :=
  let n := Z.of_nat (length l) in
  let j := if (i <? 0)%Z then (n + i)%Z else i in
  if ((0 <=? j) && (j <? n))%Z
  then match l !! Z.to_nat j with Some a => mret a | None => raise IndexError end
  else raise IndexError.

(** [np.arange(start, stop)] on ints. *)
Definition np_arange (start stop : Z) : list Z :=
  map (λ k, (start + Z.of_nat k)%Z) (seq 0 (Z.to_nat (stop - start))).

(** [np.arange(start, stop, step)] on ints, [step > 0]. *)
Definition np_arange_step (start stop step : Z) : list Z :=
  map (λ k, (start + step * Z.of_nat k)%Z)
      (seq 0 (Z.to_nat ((stop - start + step - 1) / step))).

Definition Qsum (l : list Q) : Q := foldr Qplus 0%Q l.

(** [np.mean]: [None] stands for the [nan] that NumPy returns (with a
    warning, not an exception) on an empty sequence. *)
Definition np_mean (l : list Q) : option Q :=
  match l with
  | [] => None
  | _ => Some (Qsum l / inject_Z (Z.of_nat (length l)))%Q
  end.

Definition floats (l : list Z) : list Q := map inject_Z l.

(** [x ** y] on floats.  A positive base gives the real power, unless the
    result is too large for a binary64 value; a negative base with a
    fractional exponent gives a [complex] number. *)
Definition float_pow (x y : Q) : result R :=
  if Qgtb x 0 then
    let p := Rpower (Q2R x) (Q2R y) in
    if Rle_dec (Q2R dbl_overflow) p then raise OverflowError else mret p
  else if Qeq_bool y 0 then mret 1%R
  else if Qeq_bool x 0 then
    (if Qgtb y 0 then mret 0%R else raise ZeroDivisionError)
  else if (Zpos (Qden (Qred y)) =? 1)%Z then
    let p := powerRZ (Q2R x) (Qnum (Qred y)) in
    if Rle_dec (Q2R dbl_overflow) (Rabs p) then raise OverflowError else mret p
  else raise NotReal.

(** ** Figures

    An axes is the list of artists added to it, in call order; a figure is
    the list of its axes.  Numbers shown through a format specification are
    kept with their number of decimals instead of being rendered. *)

Definition color : Set := string.

Inductive tick : Set :=
| Cat (s : string)
| Num (z : Z).

Inductive label : Type :=
| Lit (s : string)
| Fmt (prefix : string) (value : option Q) (decimals : nat) (suffix : string)
| FmtReal (prefix : string) (value : R) (decimals : nat) (suffix : string).

Inductive artist : Type :=
| Rectangle (x : tick) (height : Q) (facecolor : color)
| Line2D (xs : list Z) (ys : list Q) (fmt : string) (name : string)
| HLine (y : option Q) (lbl : label)
| Annotation (txt : label) (x : Z) (y : Q)
| Text (x y : Q) (txt : label)
| Title (s : string)
| XLabel (s : string)
| YLabel (s : string)
| Legend (title : option string)
| Grid
| XTicks (xs : list Z)
| RotateXTickLabels (degrees : Z).

Definition axes : Type := list artist.
Definition figure : Type := list axes.

(** [ax.patches[i].set_facecolor(c)], where the patches of an axes are its
    rectangles in drawing order; the index is a non-negative loop counter,
    so it is out of range exactly when there are too few patches. *)
Fixpoint set_facecolor (ax : axes) (i : nat) (c : color) : result axes :=
  match ax with
  | [] => raise IndexError
  | Rectangle x h c0 :: rest =>
      match i with
      | O => mret (Rectangle x h c :: rest)
      | S j => (Rectangle x h c0 ::.) <$> set_facecolor rest j c
      end
  | a :: rest => (a ::.) <$> set_facecolor rest i c
  end.

(** [ax.bar(xs, heights, color=c)] on two sequences of one length, which
    is what every call of the script passes; on sequences of different
    lengths matplotlib raises ValueError, and [bar] is not used there. *)
Definition bar (xs : list tick) (heights : list Q) (c : color) : list artist :=
  zip_with (λ x h, Rectangle x h c) xs heights.

Definition truthy (s : option string) : bool :=
  match s with Some (String _ _) => true | _ => false end.

Definition format_ax (ax : axes) (title xlabel ylabel : string)
    (legend_title : option string) : axes :=
  ax ++ [Title title; XLabel xlabel; YLabel ylabel]
     ++ (if truthy legend_title then [Legend legend_title] else [])
     ++ [Grid].

(** ** The world: file system, console, random generator, plot theme *)

Inductive node : Type :=
| Dir
| File (img : figure).

Inductive event : Set :=
| EvMkdir (path : string)
| EvSavefig (path : string)
| EvPrint (line : string).

Record world : Type := World {
  fs : gmap string node;
  trace : list event;          (* system calls and console writes, oldest first *)
  random_state : nat → Q;      (* standard normal draws still to come *)
  palette : nat → color        (* seaborn's colour for the i-th bar *)
}.

Definition M (A : Type) : Type := world → result (A * world).

#[global] Instance M_ret : MRet M := λ A a w, inr (a, w).
#[global] Instance M_bind : MBind M :=
  λ A B f m w, match m w with inl e => inl e | inr (a, w') => f a w' end.

Definition lift {A : Type} (r : result A) : M A :=
  λ w, match r with inl e => inl e | inr a => inr (a, w) end.

Definition emit (e : event) (w : world) : world :=
  World (fs w) (trace w ++ [e]) (random_state w) (palette w).

Definition set_fs (m : gmap string node) (w : world) : world :=
  World m (trace w) (random_state w) (palette w).

Definition print (line : string) : M unit :=
  λ w, inr (tt, emit (EvPrint line) w).

Definition newline : string := String (ascii_of_nat 10) "".

Definition slash : ascii := ascii_of_nat 47.

(** Directory part of a path: everything before its last slash. *)
Fixpoint dirname_aux (s : string) : option string :=
  match s with
  | EmptyString => None
  | String a rest =>
      match dirname_aux rest with
      | Some d => Some (String a d)
      | None => if Ascii.eqb a slash then Some EmptyString else None
      end
  end.

Definition dirname (s : string) : string := default "." (dirname_aux s).

(** [Path(p).mkdir(exist_ok=True)], for a directory of the working
    directory (which exists for as long as the process runs in it). *)
Definition mkdir_exist_ok (p : string) : M unit :=
  λ w, match fs w !! p with
       | None => inr (tt, emit (EvMkdir p) (set_fs (<[p := Dir]> (fs w)) w))
       | Some Dir => inr (tt, emit (EvMkdir p) w)
       | Some (File _) => raise FileExistsError
       end.

Definition write_file (p : string) (fig : figure) (w : world) : world :=
  emit (EvSavefig p) (set_fs (<[p := File fig]> (fs w)) w).

(** [plt.savefig(p)]: creates or truncates the file [p]. *)
Definition savefig (p : string) (fig : figure) : M unit :=
  λ w, match fs w !! dirname p with
       | Some Dir =>
           match fs w !! p with
           | Some Dir => raise IsADirectoryError
           | _ => inr (tt, write_file p fig w)
           end
       | _ => raise FileNotFoundError
       end.

(** [np.random.normal(loc, scale, n)] *)
Definition random_normal (loc scale : Q) (n : nat) : M (list Q) :=
  λ w, inr (map (λ k, loc + scale * random_state w k)%Q (seq 0 n),
            World (fs w) (trace w) (λ k, random_state w (n + k)%nat) (palette w)).

Definition get_palette : M (nat → color) := λ w, inr (palette w, w).

(** [for i, x in enumerate(l): st = body(i, x, st)], starting at index [i]. *)
Fixpoint for_enumerate {A S : Type} (body : nat → A → S → result S)
    (i : nat) (l : list A) (st : S) : result S :=
  match l with
  | [] => mret st
  | x :: rest => st' ← body i x st; for_enumerate body (Datatypes.S i) rest st'
  end.

(** [l[::2]] *)
Fixpoint every_other {A : Type} (l : list A) : list A :=
  match l with
  | x :: _ :: rest => x :: every_other rest
  | _ => l
  end.

Definition rotate_ticklabels (ax : axes) : axes := ax ++ [RotateXTickLabels 45].

(** ** Chart 1: installed capacity trend *)

Module CapacityTrend.

Definition years : list Z := np_arange 2005 2021.

Definition capacity_mw : list Z :=
  [8686; 8918; 9139; 9459; 9899; 10121; 10011; 10471;
   10740; 11221; 11846; 12706; 13299; 13928; 14600; 15406]%Z.

(** [(capacity_mw[-1]/capacity_mw[0])**(1/(len(years)-1)) - 1] *)
Definition cagr : result R :=
  last ← py_index capacity_mw (-1);
  first ← py_index capacity_mw 0;
  ratio ← int_truediv last first;
  e ← int_truediv 1 (Z.of_nat (length years) - 1);
  p ← float_pow ratio e;
  mret (p - 1)%R.

Definition annotate (i : Z) : result artist :=
  c ← py_index capacity_mw i;
  y ← py_index years i;
  mret (Annotation (Fmt "" (Some (inject_Z c)) 0 " MW") y (inject_Z c)).

Definition chart : result figure :=
  let ax := [Line2D years (floats capacity_mw) "o-" ""] in
  notes ← mapM annotate [0; 5; 10; 15]%Z;
  let ax := format_ax (ax ++ notes)
              "Global Installed Geothermal Capacity (2005-2020)"
              "Year" "Installed Capacity (MW)" None in
  let ax := ax ++ [XTicks (every_other years)] in
  g ← cagr;
  mret [ax ++ [Text 0.05 0.05 (FmtReal "CAGR: " (g * 100) 2 "%")]].

End CapacityTrend.

Definition plot_geothermal_capacity_trend : M unit :=
  fig ← lift CapacityTrend.chart;
  savefig "./results/geothermal_capacity_trend.png" fig.

(** ** Chart 2: technology comparison *)

Module TechnologyComparison.

Definition technologies : list string :=
  ["Solar PV"; "Wind Onshore"; "Wind Offshore"; "Hydropower"; "Geothermal"; "Biomass"].

Definition capacity_factors : list Q := [24.3; 35.6; 43.5; 44.2; 83.1; 75.2]%Q.

Definition lcoe_values : list Z := [57; 39; 84; 47; 71; 85]%Z.

Definition highlight_color : color := "#d62728".
Definition plain_color : color := "#1f77b4".

(** [sns.barplot(x='Technology', y=column, data=df, ax=ax)]: one bar per
    technology, each in the colour that the theme gives it. *)
Definition barplot (pal : nat → color) (column : list Q) : axes :=
  imap (λ i '(tech, y), Rectangle (Cat tech) y (pal i)) (zip technologies column).

(** The body of the two recolouring loops. *)
Definition recolor_step (i : nat) (tech : string) (ax : axes) : result axes :=
  if String.eqb tech "Geothermal"
  then set_facecolor ax i highlight_color
  else set_facecolor ax i plain_color.

Definition recolor (ax : axes) : result axes :=
  for_enumerate recolor_step 0 technologies ax.

Definition chart (pal : nat → color) : result figure :=
  ax1 ← recolor (barplot pal capacity_factors);
  let ax1 := format_ax ax1 "Capacity Factors by Technology (2020)"
               "" "Capacity Factor (%)" None in
  ax2 ← recolor (barplot pal (floats lcoe_values));
  let ax2 := format_ax ax2 "Levelized Cost of Energy (2020)"
               "" "LCOE (USD/MWh)" None in
  mret (rotate_ticklabels <$> [ax1; ax2]).

End TechnologyComparison.

Definition plot_technology_comparison : M unit :=
  pal ← get_palette;
  fig ← lift (TechnologyComparison.chart pal);
  savefig "./results/renewable_technology_comparison.png" fig.

(** ** Chart 3: top countries *)

Module TopCountries.

Definition countries : list string :=
  ["United States"; "Indonesia"; "Philippines"; "Turkey"; "New Zealand";
   "Italy"; "Iceland"; "Kenya"; "Mexico"; "Japan"].

Definition generation_gwh : list Z :=
  [18000; 14600; 10730; 8900; 8200; 6100; 6000; 5500; 5400; 2900]%Z.

Definition installed_mw : list Z :=
  [2600; 2100; 1900; 1500; 1000; 900; 750; 800; 950; 550]%Z.

(** One of the two stacked axes: the bars, then the dashed line at the mean
    of the same series, labelled with that mean. *)
Definition panel (series : list Z) (c : color) (unit title ylabel : string) : axes :=
  let ax := bar (Cat <$> countries) (floats series) c in
  let ax := ax ++ [HLine (np_mean (floats series))
                         (Fmt "Average: " (np_mean (floats series)) 0 unit)] in
  format_ax ax title "" ylabel None ++ [Legend None].

Definition chart : figure :=
  let ax1 := panel generation_gwh "maroon" " GWh"
               "Top 10 Countries by Geothermal Electricity Generation (2019)"
               "Electricity Generation (GWh)" in
  let ax2 := panel installed_mw "darkgreen" " MW"
               "Top 10 Countries by Installed Geothermal Capacity (2019)"
               "Installed Capacity (MW)" in
  rotate_ticklabels <$> [ax1; ax2].

End TopCountries.

Definition plot_top_geothermal_countries : M unit :=
  savefig "./results/top_geothermal_countries.png" TopCountries.chart.

(** ** Chart 4: working-fluid efficiency *)

Module OrcEfficiency.

Definition temperature_range : list Z := np_arange_step 80 200 10.

(** [a + b * (temperature_range - 80)] *)
Definition curve (a b : Q) : list Q :=
  map (λ t, a + b * inject_Z (t - 80))%Q temperature_range.

(** [efficiency += np.random.normal(0, 0.3, len(temperature_range))] *)
Definition add_noise (efficiency : list Q) : M (list Q) :=
  noise ← random_normal 0 0.3 (length temperature_range);
  mret (zip_with Qplus efficiency noise).

Definition textstr : list string :=
  ["Key Findings:";
   "• Isopentane shows highest efficiency";
   "• Efficiency increases with temperature";
   "• Typical range: 5-16% for binary cycles";
   "• Working fluid selection depends on resource temperature"].

Definition chart : M figure :=
  r134a ← add_noise (curve 4.5 0.08);
  r245fa ← add_noise (curve 5.0 0.09);
  isopentane ← add_noise (curve 5.2 0.10);
  n_pentane ← add_noise (curve 5.1 0.095);
  let ax := [Line2D temperature_range r134a "o-" "R134a";
             Line2D temperature_range r245fa "s-" "R245fa";
             Line2D temperature_range isopentane "^-" "Isopentane";
             Line2D temperature_range n_pentane "d-" "n-Pentane"] in
  let ax := format_ax ax "ORC Efficiency with Different Working Fluids"
              "Geothermal Resource Temperature (°C)" "Thermal Efficiency (%)"
              (Some "Working Fluids") in
  mret [ax ++ [Text 0.05 0.95 (Lit (String.concat newline textstr))]].

End OrcEfficiency.

Definition plot_orc_efficiency_comparison : M unit :=
  fig ← OrcEfficiency.chart;
  savefig "./results/orc_working_fluid_comparison.png" fig.

(** ** Chart 5: investment trends *)

Module InvestmentTrends.

Definition years : list Z := np_arange 2010 2021.

Definition investment : list Z :=
  [1600; 2900; 1700; 2200; 2800; 2000; 2400; 3100; 2300; 1800; 2500]%Z.

Definition cumulative_capacity : list Z :=
  [10121; 10011; 10471; 10740; 11221; 11846;
   12706; 13299; 13928; 14600; 15406]%Z.

Definition new_capacity : list Z :=
  [222; -110; 460; 269; 481; 625; 860; 593; 629; 672; 806]%Z.

(** [inv / max(cap, 1)] *)
Definition ratio (inv cap : Z) : result Q := int_truediv inv (Z.max cap 1).

(** [[inv / max(cap, 1) for inv, cap in zip(investment, new_capacity)]] *)
Definition inv_per_mw : result (list Q) :=
  mapM (λ '(inv, cap), ratio inv cap) (zip investment new_capacity).

(** [[i for i in inv_per_mw if i > 0]] *)
Definition averaged (ratios : list Q) : list Q :=
  List.filter (λ i, Qgtb i 0) ratios.

(** [np.mean([i for i in inv_per_mw if i > 0])] *)
Definition avg_inv_per_mw : result (option Q) :=
  ratios ← inv_per_mw;
  mret (np_mean (averaged ratios)).

Definition chart : result figure :=
  let ax1 := [XLabel "Year"; YLabel "Annual Investment (Million USD)"]
             ++ bar (Num <$> years) (floats investment) "tab:red" in
  let ax2 := [YLabel "New Capacity Added (MW)";
              Line2D years (floats new_capacity) "o-" "";
              Title "Geothermal Energy Investment and Capacity Addition (2010-2020)"] in
  let ax1 := ax1 ++ [Grid] in
  avg ← avg_inv_per_mw;
  mret [ax1 ++ [Text 0.05 0.95 (Fmt "Avg. Investment: $" avg 1 "M per MW")]; ax2].

End InvestmentTrends.

Definition plot_investment_trends : M unit :=
  fig ← lift InvestmentTrends.chart;
  savefig "./results/geothermal_investment_trends.png" fig.

(** ** Chart 6: potential by region *)

Module PotentialMap.

Definition regions : list string :=
  ["North America"; "Central America"; "South America"; "Europe"; "Africa";
   "Middle East"; "Central Asia"; "East Asia"; "Southeast Asia"; "Oceania"].

Definition potential_capacity_gw : list Z := [35; 6; 12; 18; 15; 2; 8; 27; 30; 9]%Z.

Definition installed_capacity_gw : list Q :=
  [3.2; 0.7; 0.9; 3.3; 0.7; 0.1; 0.1; 3.8; 4.8; 1.4]%Q.

(** [i/p*100], with [i] a float and [p] an int: the int is converted to a
    float, then the floats are divided. *)
Definition utilization_of (i : Q) (p : Z) : result Q :=
  d ← float_of_int p;
  q ← float_truediv i d;
  mret (q * 100)%Q.

(** [[i/p*100 for i, p in zip(installed_capacity_gw, potential_capacity_gw)]] *)
Definition utilization : result (list Q) :=
  mapM (λ '(i, p), utilization_of i p) (zip installed_capacity_gw potential_capacity_gw).

(** A row of the data frame. *)
Record row : Set := Row {
  Region : string;
  Potential : Z;
  Installed : Q;
  Utilization : Q
}.

Definition make_df (util : list Q) : list row :=
  zip_with (λ '(r, p) '(i, u), Row r p i u)
    (zip regions potential_capacity_gw) (zip installed_capacity_gw util).

(** Order of [sort_values('Potential (GW)', ascending=False)]. *)
Definition by_potential_desc (a b : row) : Prop := (Potential b ≤ Potential a)%Z.

#[global] Instance by_potential_desc_dec a b : Decision (by_potential_desc a b) :=
  Z_le_dec (Potential b) (Potential a).

Definition sort_values (df : list row) : list row := merge_sort by_potential_desc df.

(** The frame as it is when rendering starts. *)
Definition df : result (list row) :=
  util ← utilization;
  mret (sort_values (make_df util)).

(** The percentage written above the [k]-th utilization bar. *)
Definition bar_label (k : nat) (r : row) : artist :=
  Text (inject_Z (Z.of_nat k)) (Utilization r + 0.5)
       (Fmt "" (Some (Utilization r)) 1 "%").

Definition chart : result figure :=
  d ← df;
  let ax1 := bar (Cat ∘ Region <$> d) (inject_Z ∘ Potential <$> d) "#1f77b4"
             ++ bar (Cat ∘ Region <$> d) (Installed <$> d) "#ff7f0e"
             ++ [XLabel "Region"; Legend None] in
  let ax1 := format_ax ax1 "Geothermal Potential vs. Installed Capacity by Region"
               "" "Capacity (GW)" None in
  let ax2 := bar (Cat ∘ Region <$> d) (Utilization <$> d) "green"
             ++ imap bar_label d in
  let ax2 := format_ax ax2 "Geothermal Potential Utilization by Region"
               "" "Utilization (%)" None in
  mret (rotate_ticklabels <$> [ax1; ax2]).

End PotentialMap.

Definition plot_geothermal_potential_map : M unit :=
  fig ← lift PotentialMap.chart;
  savefig "./results/geothermal_potential_by_region.png" fig.

(** ** The driver *)

Definition generate_all_visualizations : M unit :=
  print "Generating geothermal energy visualizations...";;
  plot_geothermal_capacity_trend;;
  print "✓ Generated capacity trend visualization";;
  plot_technology_comparison;;
  print "✓ Generated technology comparison visualization";;
  plot_top_geothermal_countries;;
  print "✓ Generated top countries visualization";;
  plot_orc_efficiency_comparison;;
  print "✓ Generated ORC efficiency comparison";;
  plot_investment_trends;;
  print "✓ Generated investment trends visualization";;
  plot_geothermal_potential_map;;
  print "✓ Generated geothermal potential map";;
  print (newline +:+ "All visualizations have been saved to the 'results' directory.").

(** Running the script: the module-level [mkdir], then the driver under
    the [__main__] guard. *)
Definition main : M unit :=
  mkdir_exist_ok "./results";;
  generate_all_visualizations.

(** A fresh process started on the files that an earlier one left behind. *)
Definition start (files : gmap string node) (rng : nat → Q) (pal : nat → color) : world :=
  World files [] rng pal.

(** What [main] leaves on the console and in the file system. *)
Definition stdout (w : world) : list string :=
  omap (λ e, match e with EvPrint s => Some s | _ => None end) (trace w).

Definition syscalls (w : world) : list event :=
  List.filter (λ e, match e with EvPrint _ => false | _ => true end) (trace w).

Definition written (w : world) : list string :=
  omap (λ e, match e with EvSavefig p => Some p | _ => None end) (trace w).

(** ** Vocabulary of the statements *)

(** The six image files, in the order in which the driver renders them. *)
Definition outputs : list string :=
  ["./results/geothermal_capacity_trend.png";
   "./results/renewable_technology_comparison.png";
   "./results/top_geothermal_countries.png";
   "./results/orc_working_fluid_comparison.png";
   "./results/geothermal_investment_trends.png";
   "./results/geothermal_potential_by_region.png"].

(** The completion line of each chart, in the same order. *)
Definition progress_lines : list string :=
  ["✓ Generated capacity trend visualization";
   "✓ Generated technology comparison visualization";
   "✓ Generated top countries visualization";
   "✓ Generated ORC efficiency comparison";
   "✓ Generated investment trends visualization";
   "✓ Generated geothermal potential map"].

Definition summary_line : string :=
  newline +:+ "All visualizations have been saved to the 'results' directory.".

Definition banner_line : string := "Generating geothermal energy visualizations...".

(** A file system on which the script can run: the output directory is not
    shadowed by a regular file and no output path is taken by a directory. *)
Definition usable (files : gmap string node) : Prop :=
  (files !! "./results" = None ∨ files !! "./results" = Some Dir) ∧
  Forall (λ p, files !! p ≠ Some Dir) outputs.

(** A file system in which every output can be written at once. *)
Definition ready (files : gmap string node) : Prop :=
  files !! "./results" = Some Dir ∧
  Forall (λ p, files !! p ≠ Some Dir) outputs.

(** The files after a run that rendered [figs]: the output directory and,
    written in rendering order, one file per figure. *)
Definition install (figs : list figure) (files : gmap string node) : gmap string node :=
  foldl (λ m '(p, fig), <[p := File fig]> m)
        (<["./results" := Dir]> files) (zip outputs figs).

(** System calls and console lines of a complete run, oldest first. *)
Definition full_trace : list event :=
  [EvMkdir "./results"; EvPrint banner_line]
  ++ mjoin (zip_with (λ p line, [EvSavefig p; EvPrint line]) outputs progress_lines)
  ++ [EvPrint summary_line].

(** Heights of the horizontal reference lines of an axes. *)
Definition hlines (ax : axes) : list (option Q) :=
  omap (λ a, match a with HLine y _ => Some y | _ => None end) ax.

(** Category and face colour of each bar of an axes. *)
Definition bar_colors (ax : axes) : list (tick * color) :=
  omap (λ a, match a with Rectangle x _ c => Some (x, c) | _ => None end) ax.

(** The investment-per-MW average as the specification words it: ratios
    taken only over the entries whose new capacity is strictly positive. *)
Definition spec_avg_inv_per_mw : result (option Q) :=
  ratios ← mapM (λ '(inv, cap), int_truediv inv cap)
              (List.filter (λ '(_, cap), (0 <? cap)%Z)
                 (zip InvestmentTrends.investment InvestmentTrends.new_capacity));
  mret (np_mean ratios).

(** The same average as the code computes it, with the [i > 0] filter
    of the comprehension removed. *)
Definition unguarded_avg_inv_per_mw : result (option Q) :=
  ratios ← InvestmentTrends.inv_per_mw;
  mret (np_mean ratios).

(** ** Tick formatters *)

(** [int(x)] on a finite float: the integer part, rounded toward zero. *)
Definition py_int (x : Q) : Z := (Qnum x `quot` Zpos (Qden x))%Z.

(** [millions_formatter(x, pos)]; the tick position [pos] is not used.  The
    quotient is taken exactly: for ticks of magnitude up to 2^53 its integer
    part is the one of the binary64 quotient that the interpreter
    truncates, since every multiple of the unit in that range is a float
    and more than half a unit in the last place away from its neighbours. *)
Definition millions_formatter (x : Q) (pos : option nat) : string :=
  pretty (py_int (x / 1000000)) +:+ "M".

(** [thousands_formatter(x, pos)], with the same reading of the quotient. *)
Definition thousands_formatter (x : Q) (pos : option nat) : string :=
  pretty (py_int (x / 1000)) +:+ "k".

(** ** Vocabulary for the recolouring loops *)

(** Face colours of the bars of an axes, in drawing order. *)
Definition colors (ax : axes) : list color := snd <$> bar_colors ax.

(** An artist with its face colour blanked: what recolouring must keep. *)
Definition uncolored (a : artist) : artist :=
  match a with Rectangle x h _ => Rectangle x h "" | _ => a end.

(** ** The growth-rate expression as a function of its tables *)

(** [(capacity_mw[-1]/capacity_mw[0])**(1/(len(years)-1)) - 1] for arbitrary
    contents of the two local tables that the expression reads.  The
    result is the real number that the float approximates: a growth too
    small for binary64 is returned as exactly [0.0] by the interpreter, so
    only non-strict comparisons of the result with 0 carry over. *)
Definition cagr_of (capacity_mw years : list Z) : result R :=
  last ← py_index capacity_mw (-1);
  first ← py_index capacity_mw 0;
  ratio ← int_truediv last first;
  e ← int_truediv 1 (Z.of_nat (length years) - 1);
  p ← float_pow ratio e;
  mret (p - 1)%R.

(** ** The investment ratios as a function of their tables *)

(** [[inv / max(cap, 1) for inv, cap in zip(investment, new_capacity)]] for
    arbitrary contents of the two tables. *)
Definition inv_per_mw_of (investment new_capacity : list Z) : result (list Q) :=
  mapM (λ '(inv, cap), InvestmentTrends.ratio inv cap) (zip investment new_capacity).

(** [np.mean([i for i in inv_per_mw if i > 0])] for the same tables. *)
Definition avg_inv_per_mw_of (investment new_capacity : list Z) : result (option Q) :=
  ratios ← inv_per_mw_of investment new_capacity;
  mret (np_mean (InvestmentTrends.averaged ratios)).

(** Name and plotted values of each line of an axes, in drawing order. *)
Definition lines_of (ax : axes) : list (string * list Q) :=
  omap (λ a, match a with Line2D _ ys _ name => Some (name, ys) | _ => None end) ax.

(** Intercept and slope of the four working-fluid baselines, in the order in
    which the script draws their noise. *)
Definition baselines : list (string * Q * Q) :=
  [("R134a", 4.5, 0.08); ("R245fa", 5.0, 0.09);
   ("Isopentane", 5.2, 0.10); ("n-Pentane", 5.1, 0.095)]%Q.

(** ** The regional frame as a function of its tables *)

(** [[i/p*100 for i, p in zip(installed, potential)]] for arbitrary tables. *)
Definition utilization_for (installed : list Q) (potential : list Z) : result (list Q) :=
  mapM (λ '(i, p), PotentialMap.utilization_of i p) (zip installed potential).

(** The data frame built from arbitrary tables, after [sort_values].  The
    utilization comprehension zips its two tables and so stops at the
    shorter one; [pd.DataFrame] then raises ValueError unless its four
    columns have the same length. *)
Definition frame_for (regions : list string) (potential : list Z) (installed : list Q)
    : result (list PotentialMap.row) :=
  util ← utilization_for installed potential;
  if ((length regions =? length potential)%nat
      && (length potential =? length installed)%nat
      && (length installed =? length util)%nat)%bool
  then mret (PotentialMap.sort_values
               (zip_with (λ '(r, p) '(i, u), PotentialMap.Row r p i u)
                  (zip regions potential) (zip installed util)))
  else raise ValueError.


(** * Properties *)

(** ** Arithmetic helpers *)

Lemma below_overflow : (inject_Z 9007199254740992 < dbl_overflow)%Q.
Proof. reflexivity. Qed.

(** Dividing an int of at most 2^53 by a positive int neither divides by
    zero nor overflows. *)
Lemma int_truediv_defined (a b : Z) :
  (0 ≤ a ≤ 9007199254740992)%Z → (1 ≤ b)%Z →
  int_truediv a b = inr (inject_Z a / inject_Z b)%Q.
Proof.
  intros Ha Hb. unfold int_truediv.
  destruct (Z.eqb_spec b 0) as [->|_]; [lia|].
  assert (Hpos : (0 < inject_Z b)%Q) by (unfold Qlt; simpl; lia).
  assert (Hq : (0 <= inject_Z a / inject_Z b)%Q).
  { apply Qle_shift_div_l; [exact Hpos|]. unfold Qle; simpl; lia. }
  assert (Hle : (inject_Z a / inject_Z b <= inject_Z 9007199254740992)%Q).
  { apply Qle_shift_div_r; [exact Hpos|]. unfold Qle; simpl; nia. }
  destruct (Qle_bool dbl_overflow (Qabs (inject_Z a / inject_Z b))) eqn:E; [|done].
  apply Qle_bool_iff in E. rewrite Qabs_pos in E by exact Hq.
  exfalso. apply (Qlt_irrefl dbl_overflow).
  eapply Qle_lt_trans; [exact E|].
  eapply Qle_lt_trans; [exact Hle|apply below_overflow].
Qed.

Lemma overflow_int_positive : (0 < 2 ^ 1024 - 2 ^ 970)%Z.
Proof. reflexivity. Qed.

Lemma exact_ints_convert : (9007199254740992 < 2 ^ 1024 - 2 ^ 970)%Z.
Proof. reflexivity. Qed.

(** An int converts to a float unless its magnitude reaches the overflow
    threshold. *)
Lemma float_of_int_cases (n : Z) :
  float_of_int n
  = if decide (2 ^ 1024 - 2 ^ 970 ≤ Z.abs n)%Z then inl OverflowError
    else inr (inject_Z n).
Proof.
  unfold float_of_int, dbl_overflow.
  set (c := (2 ^ 1024 - 2 ^ 970)%Z).
  destruct (Qle_bool (inject_Z c) (inject_Z (Z.abs n))) eqn:E.
  - apply Qle_bool_iff in E. rewrite <- Zle_Qle in E. by rewrite decide_True.
  - rewrite decide_False; [reflexivity|]. intros H.
    rewrite Zle_Qle in H. apply Qle_bool_iff in H. congruence.
Qed.

(** The three outcomes of [i/p*100]. *)
Lemma utilization_of_cases (i : Q) (p : Z) :
  PotentialMap.utilization_of i p
  = if decide (2 ^ 1024 - 2 ^ 970 ≤ Z.abs p)%Z then inl OverflowError
    else if decide (p = 0%Z) then inl ZeroDivisionError
    else inr (i / inject_Z p * 100)%Q.
Proof.
  unfold PotentialMap.utilization_of. rewrite float_of_int_cases.
  case_decide as Hbig; [reflexivity|].
  change (inr (inject_Z p) ≫= _)
    with (float_truediv i (inject_Z p) ≫= λ q, inr (q * 100)%Q : result Q).
  unfold float_truediv.
  case_decide as Hp; [by subst p|].
  destruct (Qeq_bool (inject_Z p) 0) eqn:E; [|reflexivity].
  apply Qeq_bool_iff in E. unfold Qeq in E. simpl in E. lia.
Qed.

(** ** Investment trends *)

(** C10.  The per-entry ratio [inv / max(cap, 1)] never raises: whatever
    integer the capacity is, the divisor is at least 1 and, for each
    embedded investment value, the division returns the exact quotient.
    For the 2011 entry (investment 2900, new capacity -110) the divisor is
    1 and the ratio is 2900, which is strictly positive. *)
Theorem inv_per_mw_ratio_total (cap : Z) :
  (1 ≤ Z.max cap 1)%Z ∧
  Forall (λ inv, InvestmentTrends.ratio inv cap
                 = inr (inject_Z inv / inject_Z (Z.max cap 1))%Q)
         InvestmentTrends.investment ∧
  zip InvestmentTrends.years
      (zip InvestmentTrends.investment InvestmentTrends.new_capacity) !! 1%nat
    = Some (2011, (2900, -110))%Z ∧
  Z.max (-110) 1 = 1%Z ∧
  InvestmentTrends.ratio 2900 (-110) = inr 2900%Q ∧
  (0 < 2900)%Q.
Proof.
  split; [lia|]. split; [|by repeat split].
  unfold InvestmentTrends.investment, InvestmentTrends.ratio.
  repeat (apply Forall_cons; split; [apply int_truediv_defined; lia|]).
  apply Forall_nil_2.
Qed.

(** C1.  What the code does with the 2011 entry: its ratio, 2900, passes
    the [i > 0] filter, so it is one of the averaged values; the filter
    removes nothing, so the average is the same without it; and the
    average differs from the one taken over the entries with strictly
    positive new capacity (above 267 against below 5). *)
Theorem net_loss_year_enters_average :
  ∃ ratios a b,
    InvestmentTrends.inv_per_mw = inr ratios ∧
    InvestmentTrends.new_capacity !! 1%nat = Some (-110)%Z ∧
    ratios !! 1%nat = Some 2900%Q ∧
    2900%Q ∈ InvestmentTrends.averaged ratios ∧
    InvestmentTrends.averaged ratios = ratios ∧
    InvestmentTrends.avg_inv_per_mw = unguarded_avg_inv_per_mw ∧
    InvestmentTrends.avg_inv_per_mw = inr (Some a) ∧
    spec_avg_inv_per_mw = inr (Some b) ∧
    (267 < a)%Q ∧ (b < 5)%Q.
Proof.
  eexists _, _, _.
  split; [vm_compute; reflexivity|].
  split; [reflexivity|]. split; [reflexivity|].
  split; [apply list_elem_of_lookup; exists 1%nat; reflexivity|].
  split; [reflexivity|]. split; [reflexivity|].
  split; [vm_compute; reflexivity|].
  split; [vm_compute; reflexivity|].
  split; reflexivity.
Qed.

(** C9.  The investment tables agree with each other and with the capacity
    trend table: from index 1 to 10 the new capacity is the difference of
    consecutive cumulative capacities, and the eleven cumulative capacities
    are the last eleven installed capacities (years 2010 to 2020). *)
Theorem investment_tables_consistent :
  Forall (λ i, InvestmentTrends.new_capacity !! i
               = (c ← InvestmentTrends.cumulative_capacity !! i;
                  c' ← InvestmentTrends.cumulative_capacity !! (i - 1)%nat;
                  Some (c - c')%Z))
         (seq 1 10) ∧
  length InvestmentTrends.cumulative_capacity = 11%nat ∧
  InvestmentTrends.cumulative_capacity
    = drop (length CapacityTrend.capacity_mw - 11) CapacityTrend.capacity_mw ∧
  InvestmentTrends.years
    = drop (length CapacityTrend.years - 11) CapacityTrend.years ∧
  InvestmentTrends.years = np_arange 2010 2021.
Proof.
  split; [|by repeat split].
  repeat (apply Forall_cons; split; [reflexivity|]). apply Forall_nil_2.
Qed.

(** ** Top countries *)

(** C3.  The generation series has 10 entries that sum to 86330, its mean
    is exactly 86330/10 = 8633, and each of the two axes carries one
    horizontal line, at the mean of the series drawn on that axes. *)
Theorem top_countries_mean_lines :
  length TopCountries.generation_gwh = 10%nat ∧
  Qsum (floats TopCountries.generation_gwh) = 86330%Q ∧
  np_mean (floats TopCountries.generation_gwh) = Some (86330 / 10)%Q ∧
  (86330 / 10 == 8633)%Q ∧
  hlines <$> TopCountries.chart
    = [[np_mean (floats TopCountries.generation_gwh)];
       [np_mean (floats TopCountries.installed_mw)]].
Proof. repeat split. Qed.

(** ** Technology comparison *)

(** The recolouring loop picks the colour by comparing the whole label
    with "Geothermal". *)
Lemma recolor_step_exact (i : nat) (tech : string) (ax : axes) :
  TechnologyComparison.recolor_step i tech ax
  = set_facecolor ax i
      (if decide (tech = "Geothermal")
       then TechnologyComparison.highlight_color
       else TechnologyComparison.plain_color).
Proof.
  unfold TechnologyComparison.recolor_step.
  destruct (String.eqb_spec tech "Geothermal"); case_decide; done.
Qed.

(** C4.  Whatever colours the theme gave the bars, both bar charts end
    with every bar in the plain colour except the bar labelled
    "Geothermal", which has the highlight colour; exactly one of the six
    bars is highlighted, and the choice is an exact match on the label. *)
Theorem only_geothermal_highlighted (pal : nat → color) :
  let expected :=
    (λ tech, (Cat tech,
              if decide (tech = "Geothermal")
              then TechnologyComparison.highlight_color
              else TechnologyComparison.plain_color))
      <$> TechnologyComparison.technologies in
  ∃ ax1 ax2,
    TechnologyComparison.chart pal = inr [ax1; ax2] ∧
    bar_colors ax1 = expected ∧
    bar_colors ax2 = expected ∧
    length TechnologyComparison.technologies = 6%nat ∧
    List.filter (λ '(_, c), String.eqb c TechnologyComparison.highlight_color) expected
      = [(Cat "Geothermal", TechnologyComparison.highlight_color)] ∧
    TechnologyComparison.highlight_color ≠ TechnologyComparison.plain_color ∧
    (∀ i tech ax,
       TechnologyComparison.recolor_step i tech ax
       = set_facecolor ax i
           (if decide (tech = "Geothermal")
            then TechnologyComparison.highlight_color
            else TechnologyComparison.plain_color)).
Proof.
  intros expected. eexists _, _.
  split; [vm_compute; reflexivity|].
  repeat split; try done. apply recolor_step_exact.
Qed.

(** ** Potential by region *)

Lemma utilization_ok : ∃ util, PotentialMap.utilization = inr util.
Proof. eexists. vm_compute. reflexivity. Qed.

#[local] Instance by_potential_desc_trans : Transitive PotentialMap.by_potential_desc.
Proof. intros a b c. unfold PotentialMap.by_potential_desc. lia. Qed.

(** No two rows of the table have the same potential. *)
Lemma potential_rows_distinct (util : list Q) (x1 x2 : PotentialMap.row) :
  PotentialMap.utilization = inr util →
  x1 ∈ PotentialMap.make_df util → x2 ∈ PotentialMap.make_df util →
  PotentialMap.Potential x1 = PotentialMap.Potential x2 → x1 = x2.
Proof.
  intros H. vm_compute in H. injection H as <-.
  remember (PotentialMap.make_df _) as table eqn:Ht. vm_compute in Ht. subst table.
  intros H1 H2.
  rewrite !elem_of_cons, elem_of_nil in H1.
  rewrite !elem_of_cons, elem_of_nil in H2.
  destruct H1 as [->|[->|[->|[->|[->|[->|[->|[->|[->|[->|[]]]]]]]]]]];
    destruct H2 as [->|[->|[->|[->|[->|[->|[->|[->|[->|[->|[]]]]]]]]]]];
    simpl; intros; (reflexivity || lia).
Qed.

(** C5.  The frame is sorted by decreasing potential before rendering: it
    is a rearrangement of the ten rows of the table, each potential is at
    least the next one, and it is the only such arrangement; its first row
    is North America (35) and its last row is Middle East (2). *)
Theorem potential_frame_sorted :
  ∃ util d,
    PotentialMap.utilization = inr util ∧
    PotentialMap.df = inr d ∧
    d ≡ₚ PotentialMap.make_df util ∧
    length d = 10%nat ∧
    Sorted PotentialMap.by_potential_desc d ∧
    (∀ d', d' ≡ₚ PotentialMap.make_df util →
           Sorted PotentialMap.by_potential_desc d' → d' = d) ∧
    PotentialMap.Region <$> head d = Some "North America" ∧
    PotentialMap.Potential <$> head d = Some 35%Z ∧
    PotentialMap.Region <$> last d = Some "Middle East" ∧
    PotentialMap.Potential <$> last d = Some 2%Z.
Proof.
  destruct utilization_ok as [util Hutil].
  assert (Hdf : PotentialMap.df = inr (PotentialMap.sort_values (PotentialMap.make_df util))).
  { unfold PotentialMap.df. rewrite Hutil. reflexivity. }
  assert (Hperm : PotentialMap.sort_values (PotentialMap.make_df util)
                  ≡ₚ PotentialMap.make_df util) by apply merge_sort_Permutation.
  assert (Hsorted : Sorted PotentialMap.by_potential_desc
                      (PotentialMap.sort_values (PotentialMap.make_df util))).
  { pose proof Hutil as H. vm_compute in H. injection H as <-.
    remember (PotentialMap.sort_values _) as d eqn:Hd. vm_compute in Hd. subst d.
    repeat (constructor; try (unfold PotentialMap.by_potential_desc; simpl; lia)). }
  exists util, (PotentialMap.sort_values (PotentialMap.make_df util)).
  split; [exact Hutil|]. split; [exact Hdf|]. split; [exact Hperm|].
  split; [by rewrite Hperm; vm_compute in Hutil; injection Hutil as <-|].
  split; [exact Hsorted|]. split.
  { intros d' Hperm' Hsorted'.
    apply (Sorted_unique_strong PotentialMap.by_potential_desc); try done.
    - intros x1 x2 H1 H2 H12 H21. apply (potential_rows_distinct util); try done.
      + by rewrite <- Hperm'.
      + by rewrite <- Hperm.
      + unfold PotentialMap.by_potential_desc in *. lia.
    - by rewrite Hperm, Hperm'. }
  vm_compute in Hutil. injection Hutil as <-.
  repeat split; vm_compute; reflexivity.
Qed.

(** C6.  Every utilization value is installed/potential*100, computed
    without an exception.  The expression raises ZeroDivisionError exactly
    on a zero potential and OverflowError exactly on a potential too large
    to be converted to a float, and returns a value otherwise; no potential
    of the table is zero, and they all convert. *)
Theorem utilization_defined :
  PotentialMap.utilization
    = inr (zip_with (λ i p, i / inject_Z p * 100)%Q
             PotentialMap.installed_capacity_gw PotentialMap.potential_capacity_gw) ∧
  Forall (λ p, p ≠ 0%Z) PotentialMap.potential_capacity_gw ∧
  length PotentialMap.installed_capacity_gw
    = length PotentialMap.potential_capacity_gw ∧
  Forall (λ p, (Z.abs p < 2 ^ 1024 - 2 ^ 970)%Z) PotentialMap.potential_capacity_gw ∧
  (∀ i p, PotentialMap.utilization_of i p = inl ZeroDivisionError ↔ p = 0%Z) ∧
  (∀ i p, PotentialMap.utilization_of i p = inl OverflowError
          ↔ (2 ^ 1024 - 2 ^ 970 ≤ Z.abs p)%Z) ∧
  (∀ i p, p ≠ 0%Z → (Z.abs p < 2 ^ 1024 - 2 ^ 970)%Z →
          ∃ u, PotentialMap.utilization_of i p = inr u).
Proof.
  split; [vm_compute; reflexivity|]. split.
  { unfold PotentialMap.potential_capacity_gw.
    repeat (apply Forall_cons; split; [done|]). apply Forall_nil_2. }
  split; [reflexivity|]. split.
  { unfold PotentialMap.potential_capacity_gw.
    repeat (apply Forall_cons; split; [reflexivity|]). apply Forall_nil_2. }
  pose proof overflow_int_positive as Hc.
  set (c := (2 ^ 1024 - 2 ^ 970)%Z) in *.
  split; [|split]; intros i p; rewrite utilization_of_cases; fold c.
  - split.
    + repeat case_decide; done.
    + intros ->. rewrite decide_False by (simpl; lia). by rewrite decide_True.
  - split.
    + repeat case_decide; done.
    + intros H. by rewrite decide_True.
  - intros Hp Hsmall. rewrite decide_False by lia. rewrite decide_False by done.
    by eexists.
Qed.

(** ** Capacity trend *)

Lemma result_bind_inr {A B : Type} (a : A) (f : A → result B) :
  (inr a : result A) ≫= f = f a.
Proof. reflexivity. Qed.

(** A positive base whose power stays below the overflow threshold. *)
Lemma float_pow_positive (x y : Q) :
  (0 < x)%Q →
  (Rpower (Q2R x) (Q2R y) < Q2R dbl_overflow)%R →
  float_pow x y = inr (Rpower (Q2R x) (Q2R y)).
Proof.
  intros Hx Hlt. unfold float_pow, Qgtb.
  destruct (Qle_bool x 0) eqn:E.
  { apply Qle_bool_iff in E. exfalso. exact (Qlt_not_le _ _ Hx E). }
  simpl. destruct (Rle_dec _ _) as [Hge|_]; [lra|reflexivity].
Qed.

Lemma root15 (a : R) : (0 < a)%R → Rpower (a ^ 15) (/ 15) = a.
Proof.
  intros Ha. rewrite <- (Rpower_pow 15 a Ha), Rpower_mult.
  replace (INR 15 * / 15)%R with 1%R by (simpl; field).
  apply Rpower_1, Ha.
Qed.

(** The fifteenth root of the overall growth, bracketed to five decimals. *)
Lemma growth_root_bounds :
  (1.03894 < Rpower (15406 / 8686) (1 / 15) < 1.03895)%R.
Proof.
  replace (1 / 15)%R with (/ 15)%R by lra. split.
  - rewrite <- (root15 1.03894) at 1 by lra.
    apply Rlt_Rpower_l; lra.
  - rewrite <- (root15 1.03895) at 1 by lra.
    apply Rlt_Rpower_l; lra.
Qed.

Lemma overflow_above_two : (2 < Q2R dbl_overflow)%R.
Proof.
  replace 2%R with (Q2R 2) by (unfold Q2R; simpl; lra).
  apply Qlt_Rlt. reflexivity.
Qed.

(** The growth rate of the embedded series, evaluated. *)
Lemma cagr_eval :
  CapacityTrend.cagr = inr (Rpower (15406 / 8686) (1 / 15) - 1)%R.
Proof.
  unfold CapacityTrend.cagr.
  change (py_index CapacityTrend.capacity_mw (-1)) with (inr 15406%Z : result Z).
  rewrite result_bind_inr.
  change (py_index CapacityTrend.capacity_mw 0) with (inr 8686%Z : result Z).
  rewrite result_bind_inr.
  rewrite (int_truediv_defined 15406 8686) by lia.
  rewrite result_bind_inr.
  change (Z.of_nat (length CapacityTrend.years) - 1)%Z with 15%Z.
  rewrite (int_truediv_defined 1 15) by lia.
  rewrite result_bind_inr.
  assert (Hr : Q2R (inject_Z 15406 / inject_Z 8686) = (15406 / 8686)%R).
  { rewrite Q2R_div by done. unfold Q2R; simpl; lra. }
  assert (He : Q2R (inject_Z 1 / inject_Z 15) = (1 / 15)%R).
  { rewrite Q2R_div by done. unfold Q2R; simpl; lra. }
  rewrite float_pow_positive.
  - rewrite result_bind_inr, Hr, He. reflexivity.
  - reflexivity.
  - rewrite Hr, He. pose proof growth_root_bounds. pose proof overflow_above_two. lra.
Qed.

(** C2, as the code has it.  The growth rate is computed as
    (last/first)^(1/(n-1)) - 1 over the 16 years of the table, that is
    (15406/8686)^(1/15) - 1, which lies between 0.03894 and 0.03895:
    about 0.0389 (3.89%). *)
Theorem cagr_value :
  ∃ g : R,
    CapacityTrend.cagr = inr g ∧
    length CapacityTrend.years = 16%nat ∧
    head CapacityTrend.capacity_mw = Some 8686%Z ∧
    List.last CapacityTrend.capacity_mw 0%Z = 15406%Z ∧
    g = (Rpower (15406 / 8686) (1 / 15) - 1)%R ∧
    (0.03894 < g < 0.03895)%R.
Proof.
  eexists. split; [apply cagr_eval|]. repeat split; try reflexivity.
  all: pose proof growth_root_bounds; lra.
Qed.

(** C2, as stated, fails: the computed growth rate is not within 0.0005
    of 0.0383, let alone within floating-point tolerance. *)
Lemma cagr_is_not_0_0383 :
  ¬ ∃ g : R, CapacityTrend.cagr = inr g ∧ (Rabs (g - 0.0383) <= 0.0005)%R.
Proof.
  intros (g & Hg & Habs). rewrite cagr_eval in Hg. injection Hg as <-.
  pose proof growth_root_bounds as [Hlo _].
  rewrite Rabs_pos_eq in Habs; lra.
Qed.

(** ** The driver *)

Lemma M_bind_inr {A B : Type} (m : M A) (f : A → M B) (w w' : world) (a : A) :
  m w = inr (a, w') → (m ≫= f) w = f a w'.
Proof. intros H. unfold mbind, M_bind. rewrite H. reflexivity. Qed.

Lemma output_path (p : string) :
  p ∈ outputs → dirname p = "./results" ∧ p ≠ "./results".
Proof.
  unfold outputs. rewrite !elem_of_cons, elem_of_nil.
  intros [->|[->|[->|[->|[->|[->|[]]]]]]]; split; done.
Qed.

Lemma ready_insert (files : gmap string node) (p : string) (fig : figure) :
  ready files → p ∈ outputs → ready (<[p := File fig]> files).
Proof.
  intros [Hdir Hout] Hp. destruct (output_path p Hp) as [_ Hne]. split.
  - rewrite lookup_insert_ne; done.
  - eapply Forall_impl; [exact Hout|]. intros q Hq. simpl.
    rewrite lookup_insert. case_decide; [done|exact Hq].
Qed.

Lemma usable_ready (files : gmap string node) :
  usable files → ready (<["./results" := Dir]> files).
Proof.
  intros [_ Hout]. split; [apply lookup_insert_eq|].
  apply Forall_forall. intros q Hq.
  destruct (output_path q Hq) as [_ Hne].
  rewrite lookup_insert_ne by done.
  rewrite Forall_forall in Hout. by apply Hout.
Qed.

Lemma mkdir_run (w : world) :
  usable (fs w) →
  mkdir_exist_ok "./results" w
  = inr (tt, emit (EvMkdir "./results") (set_fs (<["./results" := Dir]> (fs w)) w)).
Proof.
  intros [[H|H] _]; unfold mkdir_exist_ok; rewrite H; [reflexivity|].
  rewrite insert_id by exact H. destruct w; reflexivity.
Qed.

Lemma savefig_run (p : string) (fig : figure) (w : world) :
  ready (fs w) → p ∈ outputs → savefig p fig w = inr (tt, write_file p fig w).
Proof.
  intros [Hdir Hout] Hp. destruct (output_path p Hp) as [Hd _].
  unfold savefig. rewrite Hd, Hdir.
  rewrite Forall_forall in Hout. specialize (Hout p).
  destruct (fs w !! p) as [[|img]|]; try reflexivity.
  exfalso. by apply Hout.
Qed.

Lemma plot_run (chart : result figure) (p : string) (fig : figure) (w : world) :
  chart = inr fig → ready (fs w) → p ∈ outputs →
  (lift chart ≫= savefig p) w = inr (tt, write_file p fig w).
Proof.
  intros -> Hr Hp. rewrite (M_bind_inr _ _ w w fig) by reflexivity.
  by apply savefig_run.
Qed.

(** Each chart of the embedded tables renders without an exception. *)
Lemma capacity_chart_ok : ∃ fig, CapacityTrend.chart = inr fig.
Proof.
  unfold CapacityTrend.chart.
  assert (∃ notes, mapM CapacityTrend.annotate [0; 5; 10; 15]%Z = inr notes)
    as [notes ->] by (eexists; vm_compute; reflexivity).
  rewrite result_bind_inr, cagr_eval, result_bind_inr. eexists; reflexivity.
Qed.

Lemma technology_chart_ok (pal : nat → color) :
  ∃ fig, TechnologyComparison.chart pal = inr fig.
Proof. eexists. vm_compute. reflexivity. Qed.

Lemma investment_chart_ok : ∃ fig, InvestmentTrends.chart = inr fig.
Proof. eexists. vm_compute. reflexivity. Qed.

Lemma potential_chart_ok : ∃ fig, PotentialMap.chart = inr fig.
Proof. eexists. vm_compute. reflexivity. Qed.

(** The working-fluid chart consumes 48 draws and depends on nothing else. *)
Lemma orc_chart_ok :
  ∃ render : (nat → Q) → figure, ∀ w,
    OrcEfficiency.chart w
    = inr (render (random_state w),
           World (fs w) (trace w) (λ k, random_state w (48 + k)%nat) (palette w)).
Proof.
  eexists (λ rng, _). intros [files tr rng pal].
  unfold OrcEfficiency.chart, OrcEfficiency.add_noise, random_normal.
  unfold mbind, mret, M_bind, M_ret. simpl. reflexivity.
Qed.

Lemma print_run (line : string) (w : world) :
  print line w = inr (tt, emit (EvPrint line) w).
Proof. reflexivity. Qed.

Lemma M_bind_step {A B : Type} (m : M A) (f : A → M B) (w w' : world) (a : A)
    (r : result (B * world)) :
  m w = inr (a, w') → f a w' = r → (m ≫= f) w = r.
Proof. intros H <-. by apply M_bind_inr. Qed.

#[local] Ltac output_member := unfold outputs; repeat constructor.

(* One console line, then the rest of the driver. *)
#[local] Ltac printed := eapply M_bind_step; [apply print_run|].

(** A complete run on a usable file system: it succeeds, it leaves the output
    directory and six files whose contents depend on the random draws and
    on the theme only, and its trace is [full_trace]. *)
Lemma main_run :
  ∃ (render : (nat → Q) → (nat → color) → list figure),
    ∀ files rng pal,
      usable files →
      length (render rng pal) = 6%nat ∧
      main (start files rng pal)
      = inr (tt, World (install (render rng pal) files) full_trace
                       (λ k, rng (48 + k)%nat) pal).
Proof.
  destruct capacity_chart_ok as [f1 Hf1].
  destruct investment_chart_ok as [f5 Hf5].
  destruct potential_chart_ok as [f6 Hf6].
  destruct orc_chart_ok as [f4 Hf4].
  exists (λ rng pal,
    [f1;
     match TechnologyComparison.chart pal with inr fig => fig | inl _ => [] end;
     TopCountries.chart; f4 rng; f5; f6]).
  intros files rng pal Hus. split; [reflexivity|].
  destruct (technology_chart_ok pal) as [f2 Hf2]. rewrite Hf2.
  assert (R0 : ready (<["./results" := Dir]> files)) by by apply usable_ready.
  pose proof (ready_insert _ "./results/geothermal_capacity_trend.png"
                f1 R0 ltac:(output_member)) as R1.
  pose proof (ready_insert _ "./results/renewable_technology_comparison.png"
                f2 R1 ltac:(output_member)) as R2.
  pose proof (ready_insert _ "./results/top_geothermal_countries.png"
                TopCountries.chart R2 ltac:(output_member)) as R3.
  pose proof (ready_insert _ "./results/orc_working_fluid_comparison.png"
                (f4 rng) R3 ltac:(output_member)) as R4.
  pose proof (ready_insert _ "./results/geothermal_investment_trends.png"
                f5 R4 ltac:(output_member)) as R5.
  unfold main.
  eapply M_bind_step; [exact (mkdir_run (start files rng pal) Hus)|].
  unfold generate_all_visualizations. printed.
  (* capacity trend *)
  eapply M_bind_step;
    [apply (plot_run _ _ f1); [exact Hf1|exact R0|output_member]|].
  printed.
  (* technology comparison *)
  eapply M_bind_step;
    [eapply M_bind_step; [reflexivity|];
     apply (plot_run _ _ f2); [exact Hf2|exact R1|output_member]|].
  printed.
  (* top countries *)
  eapply M_bind_step; [apply savefig_run; [exact R2|output_member]|].
  printed.
  (* working fluids *)
  eapply M_bind_step;
    [eapply M_bind_step; [apply Hf4|];
     apply savefig_run; [exact R3|output_member]|].
  printed.
  (* investment trends *)
  eapply M_bind_step;
    [apply (plot_run _ _ f5); [exact Hf5|exact R4|output_member]|].
  printed.
  (* potential by region *)
  eapply M_bind_step;
    [apply (plot_run _ _ f6); [exact Hf6|exact R5|output_member]|].
  printed.
  reflexivity.
Qed.

(** *** The files that a run leaves *)

Lemma six_figures (figs : list figure) :
  length figs = 6%nat → ∃ f1 f2 f3 f4 f5 f6, figs = [f1; f2; f3; f4; f5; f6].
Proof.
  destruct figs as [|f1 [|f2 [|f3 [|f4 [|f5 [|f6 [|]]]]]]]; try done.
  intros _. by eexists _, _, _, _, _, _.
Qed.

Lemma install_directory (figs : list figure) (files : gmap string node) :
  length figs = 6%nat → install figs files !! "./results" = Some Dir.
Proof.
  intros (f1 & f2 & f3 & f4 & f5 & f6 & ->)%six_figures.
  unfold install, outputs. simpl.
  rewrite !lookup_insert_ne by done. apply lookup_insert_eq.
Qed.

Lemma install_output (figs : list figure) (files : gmap string node) (p : string) :
  length figs = 6%nat → p ∈ outputs →
  ∃ fig, install figs files !! p = Some (File fig).
Proof.
  intros (f1 & f2 & f3 & f4 & f5 & f6 & ->)%six_figures.
  unfold install, outputs. simpl. rewrite !elem_of_cons, elem_of_nil.
  intros [->|[->|[->|[->|[->|[->|[]]]]]]];
    rewrite ?lookup_insert_ne by done; rewrite lookup_insert_eq; eauto.
Qed.

Lemma install_elsewhere (figs : list figure) (files : gmap string node) (p : string) :
  length figs = 6%nat → p ∉ outputs → p ≠ "./results" →
  install figs files !! p = files !! p.
Proof.
  intros (f1 & f2 & f3 & f4 & f5 & f6 & ->)%six_figures.
  unfold install, outputs. simpl. rewrite !not_elem_of_cons.
  intros (? & ? & ? & ? & ? & ? & _) ?.
  rewrite !lookup_insert_ne by done. reflexivity.
Qed.

Lemma install_usable (figs : list figure) (files : gmap string node) :
  length figs = 6%nat → usable (install figs files).
Proof.
  intros Hlen. split; [right; by apply install_directory|].
  apply Forall_forall. intros p Hp.
  destruct (install_output figs files p Hlen Hp) as [fig ->]. done.
Qed.

(** A second run replaces what the first one wrote. *)
Lemma install_overwrites (figs figs' : list figure) (files : gmap string node) :
  length figs = 6%nat → length figs' = 6%nat →
  install figs' (install figs files) = install figs' files.
Proof.
  intros (f1 & f2 & f3 & f4 & f5 & f6 & ->)%six_figures.
  intros (g1 & g2 & g3 & g4 & g5 & g6 & ->)%six_figures.
  unfold install, outputs. simpl.
  apply map_eq. intros k. rewrite !lookup_insert.
  repeat case_decide; done.
Qed.

Lemma install_dom (figs figs' : list figure) (files : gmap string node) :
  length figs = 6%nat → length figs' = 6%nat →
  dom (install figs' files) = dom (install figs files).
Proof.
  intros (f1 & f2 & f3 & f4 & f5 & f6 & ->)%six_figures.
  intros (g1 & g2 & g3 & g4 & g5 & g6 & ->)%six_figures.
  unfold install, outputs. simpl. rewrite !dom_insert_L. reflexivity.
Qed.

Lemma outputs_distinct : NoDup outputs.
Proof. apply (bool_decide_unpack (NoDup outputs)). vm_compute. exact I. Qed.

(** [mkdir(exist_ok=True)] on a directory that exists changes no file. *)
Lemma mkdir_idempotent (w : world) :
  fs w !! "./results" = Some Dir →
  ∃ w', mkdir_exist_ok "./results" w = inr (tt, w') ∧ fs w' = fs w.
Proof. intros H. unfold mkdir_exist_ok. rewrite H. eexists. split; reflexivity. Qed.

(** C7.  On a usable file system a full run succeeds; its system calls are
    the creation of the output directory (which changes nothing when the
    directory exists) followed by exactly six writes, to six fixed and
    pairwise distinct paths, one per chart; after it the directory exists,
    each path holds an image and every other path is as before.  A second
    run, whatever its random draws and theme, makes the same system calls,
    adds no path, and leaves each file as a single run with those draws
    would: the earlier contents are overwritten. *)
Theorem driver_writes_six_files
    (files : gmap string node) (rng rng' : nat → Q) (pal pal' : nat → color) :
  usable files →
  ∃ w1 w2 w2',
    main (start files rng pal) = inr (tt, w1) ∧
    syscalls w1 = EvMkdir "./results" :: (EvSavefig <$> outputs) ∧
    length outputs = 6%nat ∧
    NoDup outputs ∧
    fs w1 !! "./results" = Some Dir ∧
    Forall (λ p, ∃ fig, fs w1 !! p = Some (File fig)) outputs ∧
    (∀ p, p ∉ outputs → p ≠ "./results" → fs w1 !! p = files !! p) ∧
    (∀ w, fs w !! "./results" = Some Dir →
          ∃ w', mkdir_exist_ok "./results" w = inr (tt, w') ∧ fs w' = fs w) ∧
    main (start (fs w1) rng' pal') = inr (tt, w2) ∧
    syscalls w2 = EvMkdir "./results" :: (EvSavefig <$> outputs) ∧
    written w2 = written w1 ∧
    dom (fs w2) = dom (fs w1) ∧
    main (start files rng' pal') = inr (tt, w2') ∧
    fs w2 = fs w2'.
Proof.
  intros Hus. destruct main_run as [render Hrun].
  destruct (Hrun files rng pal Hus) as [Hlen H1].
  pose proof (install_usable (render rng pal) files Hlen) as Hus1.
  destruct (Hrun (install (render rng pal) files) rng' pal' Hus1) as [Hlen' H2].
  destruct (Hrun files rng' pal' Hus) as [_ H3].
  eexists _, _, _. split; [exact H1|].
  split; [reflexivity|]. split; [reflexivity|]. split; [apply outputs_distinct|].
  split; [by apply install_directory|].
  split; [apply Forall_forall; intros p Hp; by apply install_output|].
  split; [intros p Hp Hne; by apply install_elsewhere|].
  split; [apply mkdir_idempotent|].
  split; [exact H2|].
  split; [reflexivity|]. split; [reflexivity|].
  split; [simpl; rewrite install_overwrites by done; by apply install_dom|].
  split; [exact H3|].
  simpl. by apply install_overwrites.
Qed.

(** The empty file system is usable: a first run in a fresh directory. *)
Lemma driver_writes_six_files_witness :
  usable ∅ ∧
  ∃ w1 w2 : world,
    main (start ∅ (λ _, 0%Q) (λ _, "")) = inr (tt, w1) ∧
    main (start (fs w1) (λ _, 1%Q) (λ _, "")) = inr (tt, w2) ∧
    written w2 = written w1.
Proof.
  assert (Hus : usable (∅ : gmap string node)).
  { split; [left; reflexivity|]. unfold outputs.
    repeat (apply Forall_cons; split; [by rewrite lookup_empty|]).
    apply Forall_nil_2. }
  split; [exact Hus|].
  destruct (driver_writes_six_files ∅ (λ _, 0%Q) (λ _, 1%Q) (λ _, "") (λ _, "") Hus)
    as (w1 & w2 & _ & H1 & _ & _ & _ & _ & _ & _ & _ & H2 & _ & Hw & _).
  exists w1, w2. split; [exact H1|]. split; [exact H2|exact Hw].
Defined.

(** C8, as the code has it.  On a usable file system the driver renders the
    six charts in a fixed order, whatever the random draws and the theme,
    and the console shows a fixed sequence: an opening banner line, then
    one completion line per chart, each printed right after the chart's
    file is written, then the summary line. *)
Theorem driver_console_sequence
    (files : gmap string node) (rng : nat → Q) (pal : nat → color) :
  usable files →
  ∃ w,
    main (start files rng pal) = inr (tt, w) ∧
    written w = outputs ∧
    stdout w = banner_line :: progress_lines ++ [summary_line] ∧
    length progress_lines = length outputs ∧
    trace w
    = [EvMkdir "./results"; EvPrint banner_line]
      ++ mjoin (zip_with (λ p line, [EvSavefig p; EvPrint line]) outputs progress_lines)
      ++ [EvPrint summary_line].
Proof.
  intros Hus. destruct main_run as [render Hrun].
  destruct (Hrun files rng pal Hus) as [_ H1].
  eexists. split; [exact H1|]. by repeat split.
Qed.

Lemma driver_console_sequence_witness :
  usable ∅ ∧
  ∃ w : world,
    main (start ∅ (λ _, 0%Q) (λ _, "")) = inr (tt, w) ∧
    stdout w = banner_line :: progress_lines ++ [summary_line].
Proof.
  assert (Hus : usable (∅ : gmap string node)).
  { split; [left; reflexivity|]. unfold outputs.
    repeat (apply Forall_cons; split; [by rewrite lookup_empty|]).
    apply Forall_nil_2. }
  split; [exact Hus|].
  destruct (driver_console_sequence ∅ (λ _, 0%Q) (λ _, "") Hus)
    as (w & Hw & _ & Hout & _).
  exists w. split; [exact Hw|exact Hout].
Defined.

(** C8, as stated, fails: the console output of a run in a fresh directory
    is not just the six completion lines and the summary line; it has
    eight lines and starts with the banner. *)
Lemma console_has_a_banner_line :
  ∃ w : world,
    main (start ∅ (λ _, 0%Q) (λ _, "")) = inr (tt, w) ∧
    stdout w ≠ progress_lines ++ [summary_line] ∧
    length (stdout w) = 8%nat ∧
    head (stdout w) = Some banner_line.
Proof.
  assert (Hus : usable (∅ : gmap string node)).
  { split; [left; reflexivity|]. unfold outputs.
    repeat (apply Forall_cons; split; [by rewrite lookup_empty|]).
    apply Forall_nil_2. }
  destruct main_run as [render Hrun].
  destruct (Hrun ∅ (λ _, 0%Q) (λ _, "") Hus) as [_ H1].
  eexists. split; [exact H1|]. by repeat split.
Qed.

(** * Further properties of the script *)

(** ** Tick formatters *)

(** Dividing by a positive unit and truncating: a value in the [k]-th
    interval of the unit gives [k], and its opposite gives [-k]. *)
Lemma py_int_unit (x : Q) (u : positive) (k : Z) :
  (0 ≤ k)%Z →
  (inject_Z (k * Zpos u) <= x)%Q → (x < inject_Z ((k + 1) * Zpos u))%Q →
  py_int (x / inject_Z (Zpos u)) = k ∧ py_int (- x / inject_Z (Zpos u)) = (- k)%Z.
Proof.
  destruct x as [p q]. intros Hk Hlo Hhi.
  unfold Qle, Qlt in Hlo, Hhi. cbn in Hlo, Hhi.
  assert (Hq : (p `quot` (Zpos q * Zpos u) = k)%Z).
  { symmetry. apply (Z.quot_unique _ _ _ (p - Zpos q * Zpos u * k)%Z); nia. }
  unfold py_int, Qdiv, Qmult, Qinv, Qopp. cbn.
  rewrite !Z.mul_1_r. change (Zpos (q * u)) with (Zpos q * Zpos u)%Z.
  split; [exact Hq|]. rewrite Z.quot_opp_l by lia. by rewrite Hq.
Qed.

(** X1.  For ticks of magnitude up to 2^53, [millions_formatter] labels a
    tick with the whole number of millions it contains, rounded toward zero
    and followed by "M": a value from k million up to, but not including,
    k+1 million is labelled k, and its opposite is labelled -k (so every
    value strictly between minus one million and one million is labelled
    0M). *)
Theorem millions_formatter_truncates (x : Q) (k : Z) (pos : option nat) :
  (0 ≤ k)%Z → ((k + 1) * 1000000 ≤ 9007199254740992)%Z →
  (inject_Z (k * 1000000) <= x)%Q → (x < inject_Z ((k + 1) * 1000000))%Q →
  millions_formatter x pos = pretty k +:+ "M" ∧
  millions_formatter (- x) pos = pretty (- k)%Z +:+ "M".
Proof.
  intros Hk _ Hlo Hhi.
  destruct (py_int_unit x 1000000 k Hk Hlo Hhi) as [H1 H2]. split.
  - exact (f_equal (λ z : Z, pretty z +:+ "M") H1).
  - exact (f_equal (λ z : Z, pretty z +:+ "M") H2).
Qed.

Lemma millions_formatter_truncates_witness :
  millions_formatter 2999999.5 None = "2M" ∧
  millions_formatter (- 2999999.5) None = "-2M".
Proof.
  apply (millions_formatter_truncates 2999999.5 2 None);
    [lia|lia|unfold Qle; simpl; lia|reflexivity].
Defined.

(** X2.  For ticks of magnitude up to 2^53, [thousands_formatter] does the
    same with thousands and "k". *)
Theorem thousands_formatter_truncates (x : Q) (k : Z) (pos : option nat) :
  (0 ≤ k)%Z → ((k + 1) * 1000 ≤ 9007199254740992)%Z →
  (inject_Z (k * 1000) <= x)%Q → (x < inject_Z ((k + 1) * 1000))%Q →
  thousands_formatter x pos = pretty k +:+ "k" ∧
  thousands_formatter (- x) pos = pretty (- k)%Z +:+ "k".
Proof.
  intros Hk _ Hlo Hhi.
  destruct (py_int_unit x 1000 k Hk Hlo Hhi) as [H1 H2]. split.
  - exact (f_equal (λ z : Z, pretty z +:+ "k") H1).
  - exact (f_equal (λ z : Z, pretty z +:+ "k") H2).
Qed.

Lemma thousands_formatter_truncates_witness :
  thousands_formatter 999.5 (Some 3%nat) = "0k" ∧
  thousands_formatter (- 999.5) (Some 3%nat) = "0k".
Proof.
  apply (thousands_formatter_truncates 999.5 0 (Some 3%nat));
    [lia|lia|unfold Qle; simpl; lia|reflexivity].
Defined.

(** ** Recolouring loops of the technology comparison *)

Lemma set_facecolor_in_range (ax : axes) (i : nat) (c : color) :
  (i < length (colors ax))%nat →
  ∃ ax', set_facecolor ax i c = inr ax' ∧
         uncolored <$> ax' = uncolored <$> ax ∧
         colors ax' = <[i := c]> (colors ax).
Proof.
  unfold colors. revert i.
  induction ax as [|a ax IH]; intros i Hi; [simpl in Hi; lia|].
  destruct a as [x h c0| | | | | | | | | | |];
    try (destruct (IH i Hi) as (ax' & E & Hu & Hc); eexists (_ :: ax');
         split; [simpl; rewrite E; reflexivity|];
         split; [rewrite !fmap_cons, Hu; reflexivity|exact Hc]).
  destruct i as [|j].
  - exists (Rectangle x h c :: ax). split; [reflexivity|]. split; reflexivity.
  - destruct (IH j (proj2 (Nat.succ_lt_mono _ _) Hi)) as (ax' & E & Hu & Hc).
    exists (Rectangle x h c0 :: ax').
    split; [simpl; rewrite E; reflexivity|].
    split; [rewrite !fmap_cons, Hu; reflexivity|].
    change ((c0 :: (bar_colors ax').*2) = c0 :: <[j := c]> (bar_colors ax).*2).
    by rewrite Hc.
Qed.

Lemma set_facecolor_out_of_range (ax : axes) (i : nat) (c : color) :
  (length (colors ax) ≤ i)%nat → set_facecolor ax i c = inl IndexError.
Proof.
  unfold colors. revert i.
  induction ax as [|a ax IH]; intros i Hi; [reflexivity|].
  destruct a as [x h c0| | | | | | | | | | |];
    try (simpl; by rewrite (IH i Hi)).
  destruct i as [|j]; [simpl in Hi; lia|].
  simpl. by rewrite (IH j (proj2 (Nat.succ_le_mono _ _) Hi)).
Qed.

(** The loop from index [i] on: it needs a bar for every label. *)
Lemma recolor_loop_ok (techs : list string) (i : nat) (ax : axes) :
  (i + length techs ≤ length (colors ax))%nat →
  ∃ ax', for_enumerate TechnologyComparison.recolor_step i techs ax = inr ax' ∧
         uncolored <$> ax' = uncolored <$> ax ∧
         colors ax'
         = take i (colors ax)
           ++ ((λ tech, if decide (tech = "Geothermal")
                        then TechnologyComparison.highlight_color
                        else TechnologyComparison.plain_color) <$> techs)
           ++ drop (i + length techs) (colors ax).
Proof.
  revert i ax. induction techs as [|tech techs IH]; intros i ax Hlen.
  - exists ax. split; [reflexivity|]. split; [reflexivity|].
    simpl. rewrite Nat.add_0_r. by rewrite take_drop.
  - simpl in Hlen. simpl for_enumerate. rewrite recolor_step_exact.
    set (c := if decide (tech = "Geothermal")
              then TechnologyComparison.highlight_color
              else TechnologyComparison.plain_color).
    destruct (set_facecolor_in_range ax i c ltac:(lia)) as (ax1 & -> & Hu1 & Hc1).
    rewrite result_bind_inr.
    assert (Hlen1 : length (colors ax1) = length (colors ax))
      by (rewrite Hc1; apply length_insert).
    destruct (IH (S i) ax1 ltac:(lia)) as (ax' & -> & Hu & Hc).
    exists ax'. split; [reflexivity|]. split; [by rewrite Hu|].
    assert (Hlk : <[i := c]> (colors ax) !! i = Some c)
      by (apply list_lookup_insert_eq; lia).
    rewrite Hc, Hc1, (take_S_r _ _ _ Hlk).
    rewrite take_insert_ge by lia. rewrite drop_insert_lt by lia.
    rewrite fmap_cons, <- app_assoc. simpl.
    replace (i + S (length techs))%nat with (S (i + length techs)) by lia.
    reflexivity.
Qed.

Lemma recolor_loop_fails (techs : list string) (i : nat) (ax : axes) :
  techs ≠ [] → (length (colors ax) < i + length techs)%nat →
  for_enumerate TechnologyComparison.recolor_step i techs ax = inl IndexError.
Proof.
  revert i ax. induction techs as [|tech techs IH]; intros i ax Hne Hlen; [done|].
  simpl in Hlen. simpl for_enumerate. rewrite recolor_step_exact.
  destruct (decide (length (colors ax) ≤ i)%nat) as [Hout|Hin].
  - by rewrite set_facecolor_out_of_range.
  - destruct (set_facecolor_in_range ax i
                (if decide (tech = "Geothermal")
                 then TechnologyComparison.highlight_color
                 else TechnologyComparison.plain_color) ltac:(lia))
      as (ax1 & -> & _ & Hc1).
    rewrite result_bind_inr.
    assert (Hlen1 : length (colors ax1) = length (colors ax))
      by (rewrite Hc1; apply length_insert).
    apply IH; [|lia]. intros ->. simpl in Hlen. lia.
Qed.

(** X3.  A recolouring loop aborts with IndexError on any axes that has
    fewer than six bars: it indexes one patch per technology label. *)
Theorem recolor_needs_six_bars (ax : axes) :
  (length (colors ax) < 6)%nat → TechnologyComparison.recolor ax = inl IndexError.
Proof. intros H. apply recolor_loop_fails; [done|exact H]. Qed.

Lemma recolor_needs_six_bars_witness :
  TechnologyComparison.recolor
    (bar [Cat "Geothermal"; Cat "Biomass"] [83.1; 75.2]%Q "grey" ++ [Grid])
  = inl IndexError.
Proof. apply recolor_needs_six_bars. simpl. lia. Defined.

(** X4.  On an axes with at least six bars a recolouring loop succeeds and
    changes face colours only: the first six bars become plain, except the
    fifth, which is highlighted, whatever categories the bars stand for
    (the colour follows the position of "Geothermal" in the label list);
    further bars keep their colour, and positions, heights and all other
    artists are untouched. *)
Theorem recolor_touches_first_six_colors (ax : axes) :
  (6 ≤ length (colors ax))%nat →
  ∃ ax',
    TechnologyComparison.recolor ax = inr ax' ∧
    uncolored <$> ax' = uncolored <$> ax ∧
    colors ax'
    = [TechnologyComparison.plain_color; TechnologyComparison.plain_color;
       TechnologyComparison.plain_color; TechnologyComparison.plain_color;
       TechnologyComparison.highlight_color; TechnologyComparison.plain_color]
      ++ drop 6 (colors ax).
Proof.
  intros H.
  destruct (recolor_loop_ok TechnologyComparison.technologies 0 ax H)
    as (ax' & Hrun & Hu & Hc).
  exists ax'. split; [exact Hrun|]. split; [exact Hu|]. exact Hc.
Qed.

Lemma recolor_touches_first_six_colors_witness :
  ∃ ax',
    TechnologyComparison.recolor
      (bar (Cat <$> ["a"; "b"; "c"; "d"; "e"; "f"; "Geothermal"])
           [1; 2; 3; 4; 5; 6; 7]%Q "grey") = inr ax' ∧
    colors ax' = ["#1f77b4"; "#1f77b4"; "#1f77b4"; "#1f77b4"; "#d62728"; "#1f77b4"; "grey"].
Proof.
  destruct (recolor_touches_first_six_colors
              (bar (Cat <$> ["a"; "b"; "c"; "d"; "e"; "f"; "Geothermal"])
                   [1; 2; 3; 4; 5; 6; 7]%Q "grey")
              ltac:(apply Nat.leb_le; reflexivity))
    as (ax' & H & _ & Hc).
  exists ax'. split; [exact H|exact Hc].
Defined.

(** Artists appended after the bars do not move the patch indices. *)
Lemma set_facecolor_app (ax extra : axes) (i : nat) (c : color) :
  colors extra = [] →
  set_facecolor (ax ++ extra) i c = (.++ extra) <$> set_facecolor ax i c.
Proof.
  intros Hextra. revert i. induction ax as [|a ax IH]; intros i.
  - simpl. rewrite set_facecolor_out_of_range; [reflexivity|]. rewrite Hextra. simpl. lia.
  - destruct a; simpl; try (rewrite IH; by destruct (set_facecolor ax i c)).
    destruct i as [|j]; [reflexivity|].
    rewrite IH. by destruct (set_facecolor ax j c).
Qed.

Lemma recolor_loop_app (techs : list string) (i : nat) (ax extra : axes) :
  colors extra = [] →
  for_enumerate TechnologyComparison.recolor_step i techs (ax ++ extra)
  = (.++ extra) <$> for_enumerate TechnologyComparison.recolor_step i techs ax.
Proof.
  intros Hextra. revert i ax. induction techs as [|tech techs IH]; intros i ax.
  - reflexivity.
  - simpl for_enumerate. rewrite !recolor_step_exact, set_facecolor_app by exact Hextra.
    destruct (set_facecolor ax i _) as [e|ax1]; [reflexivity|].
    exact (IH (S i) ax1).
Qed.

(** X5.  Formatting an axes and recolouring its bars commute: the script
    recolours first and formats afterwards, and the other order yields the
    same axes, or the same IndexError. *)
Theorem recolor_format_ax_commute
    (ax : axes) (title xlabel ylabel : string) (legend_title : option string) :
  TechnologyComparison.recolor (format_ax ax title xlabel ylabel legend_title)
  = (λ a, format_ax a title xlabel ylabel legend_title)
      <$> TechnologyComparison.recolor ax.
Proof.
  unfold format_ax, TechnologyComparison.recolor.
  rewrite recolor_loop_app; [reflexivity|].
  by destruct (truthy legend_title).
Qed.

(** ** Growth rate of an arbitrary capacity series *)

Lemma cagr_of_tables :
  CapacityTrend.cagr = cagr_of CapacityTrend.capacity_mw CapacityTrend.years.
Proof. reflexivity. Qed.

Lemma py_index_first {A : Type} (l : list A) :
  py_index l 0 = match head l with Some a => inr a | None => inl IndexError end.
Proof. destruct l as [|a l]; [reflexivity|]. unfold py_index. simpl length.
  replace ((0 <=? 0)%Z && (0 <? Z.of_nat (S (length l)))%Z) with true; [reflexivity|].
  symmetry. apply andb_true_iff. split; [reflexivity|]. apply Z.ltb_lt. lia.
Qed.

Lemma py_index_last {A : Type} (l : list A) :
  py_index l (-1) = match last l with Some a => inr a | None => inl IndexError end.
Proof.
  destruct (decide (l = [])) as [->|Hne]; [reflexivity|].
  assert (Hlen : (0 < length l)%nat) by (destruct l; [done|simpl; lia]).
  unfold py_index. change (-1 <? 0)%Z with true. cbv iota.
  replace ((0 <=? Z.of_nat (length l) + -1)%Z
           && (Z.of_nat (length l) + -1 <? Z.of_nat (length l))%Z) with true.
  - rewrite last_lookup.
    replace (Z.to_nat (Z.of_nat (length l) + -1)) with (Init.Nat.pred (length l)) by lia.
    reflexivity.
  - symmetry. apply andb_true_iff. split; [apply Z.leb_le|apply Z.ltb_lt]; lia.
Qed.

(** X6.  The growth rate reads only the first entry, the last entry and the
    number of years: two capacity tables with the same ends and two year
    tables of the same length give the same result, or the same exception. *)
Theorem cagr_of_reads_ends_only (capacity capacity' years years' : list Z) :
  head capacity = head capacity' →
  last capacity = last capacity' →
  length years = length years' →
  cagr_of capacity years = cagr_of capacity' years'.
Proof.
  intros Hh Hl Hy. unfold cagr_of.
  by rewrite !py_index_first, !py_index_last, Hh, Hl, Hy.
Qed.

Lemma cagr_of_reads_ends_only_witness :
  cagr_of [8686; 1; 15406]%Z [2005; 2006; 2007]%Z
  = cagr_of [8686; 9000; 12000; 15406]%Z [1; 2; 3]%Z.
Proof. apply cagr_of_reads_ends_only; reflexivity. Defined.

(** X7.  Failure modes of the growth rate: an empty capacity table raises
    IndexError, and a table whose first entry is 0 raises
    ZeroDivisionError, whatever the years are. *)
Theorem cagr_of_degenerate_tables (years rest : list Z) :
  cagr_of [] years = inl IndexError ∧
  cagr_of (0%Z :: rest) years = inl ZeroDivisionError.
Proof.
  split; [reflexivity|]. unfold cagr_of.
  rewrite py_index_first, py_index_last. simpl head.
  destruct (last (0%Z :: rest)) as [lst|] eqn:E; [reflexivity|].
  by apply last_None in E.
Qed.

(** X8.  With a single year the exponent 1/(n-1) divides by zero: the growth
    rate raises ZeroDivisionError even though the capacities are fine. *)
Theorem cagr_of_single_year (capacity : list Z) (first lst year : Z) :
  head capacity = Some first → last capacity = Some lst →
  (1 ≤ first)%Z → (0 ≤ lst ≤ 9007199254740992)%Z →
  cagr_of capacity [year] = inl ZeroDivisionError.
Proof.
  intros Hh Hl Hf Hlst. unfold cagr_of.
  rewrite py_index_first, py_index_last, Hh, Hl, !result_bind_inr.
  rewrite (int_truediv_defined lst first) by lia. reflexivity.
Qed.

Lemma cagr_of_single_year_witness :
  cagr_of [8686]%Z [2005]%Z = inl ZeroDivisionError.
Proof. apply (cagr_of_single_year [8686]%Z 8686 8686 2005); [reflexivity|reflexivity|lia|lia]. Defined.

Lemma Rpower_base_one (e : R) : Rpower 1 e = 1%R.
Proof. unfold Rpower. rewrite ln_1, Rmult_0_r. apply exp_0. Qed.

Lemma Rpower_root (x : R) (m : nat) :
  (0 < x)%R → (0 < m)%nat → (Rpower x (/ INR m) ^ m = x)%R.
Proof.
  intros Hx Hm.
  rewrite <- Rpower_pow by (unfold Rpower; apply exp_pos).
  rewrite Rpower_mult, Rinv_l by (apply not_0_INR; lia).
  by apply Rpower_1.
Qed.

(** A root of a positive number lies between 1 and the number. *)
Lemma Rpower_root_bound (x e : R) :
  (0 < x)%R → (0 < e <= 1)%R → (Rpower x e <= 1 + x)%R.
Proof.
  intros Hx He. destruct (Rle_dec 1 x) as [H1|H1].
  - pose proof (Rle_Rpower x e 1 H1 (proj2 He)) as H.
    rewrite (Rpower_1 x Hx) in H. lra.
  - pose proof (Rle_Rpower_l x 1 e ltac:(lra) ltac:(lra)) as H.
    rewrite Rpower_base_one in H. lra.
Qed.

Lemma Q2R_inject_Z (z : Z) : Q2R (inject_Z z) = IZR z.
Proof. unfold Q2R, inject_Z. cbn [Qnum Qden]. rewrite Rinv_1. apply Rmult_1_r. Qed.

Lemma overflow_above_exact_ints : (1 + IZR 9007199254740992 < Q2R dbl_overflow)%R.
Proof.
  replace (1 + IZR 9007199254740992)%R with (Q2R (inject_Z 9007199254740993)).
  - apply Qlt_Rlt. reflexivity.
  - rewrite Q2R_inject_Z. rewrite <- (plus_IZR 1). f_equal.
Qed.

(** X9.  For a series that starts and ends with positive capacities (up to
    2^53, where ints are exact floats) and spans at least two years, the
    growth rate is defined, exceeds -1, and is the compound rate:
    compounding it over the n-1 intervals takes the first capacity to the
    last (an identity between real numbers, which the float result
    approximates).  It is never negative when the series did not shrink
    and never positive when it did not grow; in particular it is zero when
    the series ends where it started. *)
Theorem cagr_of_compounds (capacity years : list Z) (first lst : Z) :
  head capacity = Some first → last capacity = Some lst →
  (1 ≤ first ≤ 9007199254740992)%Z → (1 ≤ lst ≤ 9007199254740992)%Z →
  (2 ≤ length years)%nat →
  ∃ g : R,
    cagr_of capacity years = inr g ∧
    (-1 < g)%R ∧
    ((1 + g) ^ (length years - 1) * IZR first = IZR lst)%R ∧
    ((first ≤ lst)%Z → (0 <= g)%R) ∧
    ((lst ≤ first)%Z → (g <= 0)%R).
Proof.
  intros Hh Hl Hf Hlst Hn. unfold cagr_of.
  rewrite py_index_first, py_index_last, Hh, Hl, !result_bind_inr.
  rewrite (int_truediv_defined lst first) by lia. rewrite result_bind_inr.
  rewrite (int_truediv_defined 1 (Z.of_nat (length years) - 1)) by lia.
  rewrite result_bind_inr.
  set (m := (length years - 1)%nat).
  assert (Hfpos : (0 < IZR first)%R) by (apply IZR_lt; lia).
  assert (Hlpos : (0 < IZR lst)%R) by (apply IZR_lt; lia).
  assert (Hx : Q2R (inject_Z lst / inject_Z first) = (IZR lst / IZR first)%R).
  { rewrite Q2R_div, !Q2R_inject_Z; [reflexivity|].
    unfold Qeq. simpl. lia. }
  assert (He : Q2R (inject_Z 1 / inject_Z (Z.of_nat (length years) - 1)) = (/ INR m)%R).
  { rewrite Q2R_div, !Q2R_inject_Z by (unfold Qeq; simpl; lia).
    replace (Z.of_nat (length years) - 1)%Z with (Z.of_nat m) by lia.
    rewrite <- INR_IZR_INZ. lra. }
  assert (Hm : (1 <= INR m)%R) by (replace 1%R with (INR 1) by reflexivity; apply le_INR; lia).
  assert (Hepos : (0 < / INR m <= 1)%R).
  { split; [apply Rinv_0_lt_compat; lra|].
    rewrite <- Rinv_1. apply Rinv_le_contravar; lra. }
  set (x := (IZR lst / IZR first)%R) in *.
  assert (Hxpos : (0 < x)%R) by (apply Rdiv_lt_0_compat; assumption).
  assert (Hxf : (x * IZR first = IZR lst)%R) by (unfold x; field; lra).
  assert (Hxle : (x <= IZR 9007199254740992)%R).
  { assert (IZR lst <= IZR 9007199254740992)%R by (apply IZR_le; lia).
    assert (1 <= IZR first)%R by (apply IZR_le; lia). nra. }
  rewrite float_pow_positive.
  2: { apply Qlt_shift_div_l; unfold Qlt; simpl; lia. }
  2: { rewrite Hx, He. pose proof (Rpower_root_bound x (/ INR m) Hxpos Hepos).
       pose proof overflow_above_exact_ints. lra. }
  rewrite result_bind_inr, Hx, He. eexists. split; [reflexivity|].
  set (P := Rpower x (/ INR m)).
  assert (HP : (0 < P)%R) by (unfold P, Rpower; apply exp_pos).
  assert (Hup : (1 < x)%R → (1 < P)%R).
  { intros H. rewrite <- (Rpower_base_one (/ INR m)). apply Rlt_Rpower_l; lra. }
  assert (Hdown : (x < 1)%R → (P < 1)%R).
  { intros H. rewrite <- (Rpower_base_one (/ INR m)). apply Rlt_Rpower_l; lra. }
  assert (Hflat : x = 1%R → P = 1%R).
  { intros H. unfold P. rewrite H. apply Rpower_base_one. }
  assert (Hlt : (first < lst)%Z → (1 < x)%R).
  { intros H. apply IZR_lt in H. nra. }
  assert (Hgt : (lst < first)%Z → (x < 1)%R).
  { intros H. apply IZR_lt in H. nra. }
  assert (Heq : first = lst → x = 1%R).
  { intros ->. unfold x. field. lra. }
  split; [lra|]. split.
  { replace (1 + (P - 1))%R with P by ring. unfold P.
    fold m. rewrite Rpower_root by (assumption || lia). exact Hxf. }
  split; intros H.
  - destruct (Z.eq_dec first lst) as [E|E].
    + specialize (Hflat (Heq E)). lra.
    + specialize (Hup (Hlt ltac:(lia))). lra.
  - destruct (Z.eq_dec first lst) as [E|E].
    + specialize (Hflat (Heq E)). lra.
    + specialize (Hdown (Hgt ltac:(lia))). lra.
Qed.

Lemma cagr_of_compounds_witness :
  ∃ g : R,
    cagr_of [100; 150; 400]%Z [2000; 2001; 2002]%Z = inr g ∧
    ((1 + g) ^ 2 * 100 = 400)%R.
Proof.
  destruct (cagr_of_compounds [100; 150; 400]%Z [2000; 2001; 2002]%Z 100 400)
    as (g & Hg & _ & Hc & _);
    [reflexivity|reflexivity|lia|lia|simpl; lia|].
  exists g. split; [exact Hg|exact Hc].
Defined.

(** ** Investment ratios of arbitrary tables *)

Lemma inv_per_mw_of_tables :
  InvestmentTrends.inv_per_mw
  = inv_per_mw_of InvestmentTrends.investment InvestmentTrends.new_capacity ∧
  InvestmentTrends.avg_inv_per_mw
  = avg_inv_per_mw_of InvestmentTrends.investment InvestmentTrends.new_capacity.
Proof. split; reflexivity. Qed.

(** Division of an int of magnitude at most 2^53 by a positive int. *)
Lemma int_truediv_signed (a b : Z) :
  (- 9007199254740992 ≤ a ≤ 9007199254740992)%Z → (1 ≤ b)%Z →
  int_truediv a b = inr (inject_Z a / inject_Z b)%Q.
Proof.
  intros Ha Hb. unfold int_truediv.
  destruct (Z.eqb_spec b 0) as [->|_]; [lia|].
  assert (Hpos : (0 < inject_Z b)%Q) by (unfold Qlt; simpl; lia).
  destruct (Qle_bool dbl_overflow (Qabs (inject_Z a / inject_Z b))) eqn:E; [|done].
  apply Qle_bool_iff in E. exfalso. apply (Qlt_irrefl dbl_overflow).
  eapply Qle_lt_trans; [exact E|].
  eapply Qle_lt_trans; [|apply below_overflow].
  apply Qabs_Qle_condition. split.
  - apply Qle_shift_div_l; [exact Hpos|]. unfold Qle; simpl; nia.
  - apply Qle_shift_div_r; [exact Hpos|]. unfold Qle; simpl; nia.
Qed.

(** The ratio of one entry and the test that the filter applies to it. *)
Lemma ratio_sign_test (inv cap : Z) :
  (- 9007199254740992 ≤ inv ≤ 9007199254740992)%Z →
  ∃ r : Q,
    InvestmentTrends.ratio inv cap = inr r ∧
    (Qgtb r 0 = true ↔ (0 < inv)%Z) ∧
    ((cap ≤ 1)%Z → r = (inject_Z inv / 1)%Q) ∧
    ((1 ≤ cap)%Z → r = (inject_Z inv / inject_Z cap)%Q).
Proof.
  intros Hinv. unfold InvestmentTrends.ratio.
  rewrite (int_truediv_signed inv (Z.max cap 1)) by lia.
  eexists. split; [reflexivity|].
  assert (Hpos : (0 < inject_Z (Z.max cap 1))%Q) by (unfold Qlt; simpl; lia).
  split; [|split].
  - unfold Qgtb. rewrite negb_true_iff, <- not_true_iff_false, Qle_bool_iff.
    split.
    + intros Hn. destruct (Z_lt_le_dec 0 inv) as [?|Hle]; [assumption|].
      exfalso. apply Hn. apply Qle_shift_div_r; [exact Hpos|].
      rewrite Qmult_0_l. unfold Qle; simpl; lia.
    + intros Hlt Hle. refine (Qlt_not_le _ _ _ Hle).
      apply Qlt_shift_div_l; [exact Hpos|].
      rewrite Qmult_0_l. unfold Qlt; simpl; lia.
  - intros Hc. by replace (Z.max cap 1) with 1%Z by lia.
  - intros Hc. by replace (Z.max cap 1) with cap by lia.
Qed.

(** X10.  What the [i > 0] filter of the investment average really tests:
    for any investment of magnitude up to 2^53 and any capacity up to 2^53,
    every negative capacity included, the ratio is defined and it passes
    the filter exactly when the investment is positive; in that range the
    capacity has no say.  A capacity of 1 or less is replaced by 1, and the
    ratio is then the investment itself. *)
Theorem ratio_filter_tests_investment (inv cap : Z) :
  (- 9007199254740992 ≤ inv ≤ 9007199254740992)%Z →
  (cap ≤ 9007199254740992)%Z →
  ∃ r : Q,
    InvestmentTrends.ratio inv cap = inr r ∧
    (Qgtb r 0 = true ↔ (0 < inv)%Z) ∧
    ((cap ≤ 1)%Z → r = (inject_Z inv / 1)%Q).
Proof.
  intros Hinv _.
  destruct (ratio_sign_test inv cap Hinv) as (r & Hr & Hs & Hone & _).
  exists r. split; [exact Hr|]. split; [exact Hs|exact Hone].
Qed.

Lemma ratio_filter_tests_investment_witness :
  ∃ r : Q,
    InvestmentTrends.ratio 2900 (-110) = inr r ∧ Qgtb r 0 = true.
Proof.
  destruct (ratio_filter_tests_investment 2900 (-110) ltac:(lia) ltac:(lia))
    as (r & Hr & Hf & _).
  exists r. split; [exact Hr|]. apply Hf. lia.
Defined.

Lemma averaged_all (rs : list Q) :
  Forall (λ r, Qgtb r 0 = true) rs → InvestmentTrends.averaged rs = rs.
Proof.
  unfold InvestmentTrends.averaged.
  induction 1 as [|r rs Hr _ IH]; [reflexivity|]. simpl. by rewrite Hr, IH.
Qed.

Lemma averaged_none (rs : list Q) :
  Forall (λ r, Qgtb r 0 = false) rs → InvestmentTrends.averaged rs = [].
Proof.
  unfold InvestmentTrends.averaged.
  induction 1 as [|r rs Hr _ IH]; [reflexivity|]. simpl. by rewrite Hr, IH.
Qed.

(** The ratios of any tables whose investments have magnitude up to 2^53:
    no exception, one ratio per zipped pair, each with the sign test of
    its investment. *)
Lemma inv_per_mw_of_defined (investment new_capacity : list Z) :
  Forall (λ inv, (- 9007199254740992 ≤ inv ≤ 9007199254740992)%Z) investment →
  ∃ rs,
    inv_per_mw_of investment new_capacity = inr rs ∧
    length rs = (length investment `min` length new_capacity)%nat ∧
    Forall2 (λ r inv, Qgtb r 0 = true ↔ (0 < inv)%Z) rs (take (length rs) investment).
Proof.
  intros Hall. revert new_capacity.
  induction Hall as [|inv invs Hinv _ IH]; intros caps.
  { exists []. by repeat split. }
  destruct caps as [|cap caps]; [exists []; by repeat split|].
  destruct (ratio_sign_test inv cap Hinv) as (r & Hr & Hs & _).
  destruct (IH caps) as (rs & Hrs & Hlen & Hsigns).
  exists (r :: rs). unfold inv_per_mw_of in *. simpl zip. simpl mapM.
  rewrite Hr, result_bind_inr, Hrs, result_bind_inr.
  split; [reflexivity|]. split; [simpl; by rewrite Hlen|].
  simpl. by constructor.
Qed.

(** X11.  When every investment is positive and every capacity is at most
    2^53 (both up to 2^53 in magnitude, capacities of any sign otherwise),
    the ratios are computed without an exception, one per zipped pair,
    every one of them passes the [i > 0] filter, and the average is a
    number as soon as both tables are non-empty: the filter excludes no
    year for its capacity. *)
Theorem positive_investments_are_all_averaged (investment new_capacity : list Z) :
  Forall (λ inv, (1 ≤ inv ≤ 9007199254740992)%Z) investment →
  Forall (λ cap, (cap ≤ 9007199254740992)%Z) new_capacity →
  ∃ rs,
    inv_per_mw_of investment new_capacity = inr rs ∧
    length rs = (length investment `min` length new_capacity)%nat ∧
    InvestmentTrends.averaged rs = rs ∧
    avg_inv_per_mw_of investment new_capacity = inr (np_mean rs) ∧
    (investment ≠ [] → new_capacity ≠ [] → np_mean rs ≠ None).
Proof.
  intros Hall _.
  destruct (inv_per_mw_of_defined investment new_capacity) as (rs & Hrs & Hlen & Hs).
  { eapply Forall_impl; [exact Hall|]. simpl. lia. }
  assert (Hkeep : InvestmentTrends.averaged rs = rs).
  { apply averaged_all. apply Forall_forall. intros r Hr.
    apply list_elem_of_lookup in Hr as [k Hk].
    destruct (Forall2_lookup_l _ _ _ _ _ Hs Hk) as (inv & Hinv & Hiff).
    apply Hiff. apply lookup_take_Some in Hinv as [Hinv _].
    rewrite Forall_forall in Hall.
    pose proof (Hall inv ltac:(by eapply list_elem_of_lookup_2)). lia. }
  exists rs. split; [exact Hrs|]. split; [exact Hlen|]. split; [exact Hkeep|].
  split; [unfold avg_inv_per_mw_of; by rewrite Hrs, result_bind_inr, Hkeep|].
  intros Hi Hc. destruct rs as [|r rs]; [|done].
  destruct investment, new_capacity; simpl in Hlen; done.
Qed.

Lemma positive_investments_are_all_averaged_witness :
  ∃ rs,
    inv_per_mw_of [10; 20; 30]%Z [0; -5]%Z = inr rs ∧
    length rs = 2%nat ∧ InvestmentTrends.averaged rs = rs.
Proof.
  destruct (positive_investments_are_all_averaged [10; 20; 30]%Z [0; -5]%Z)
    as (rs & H & Hlen & Hk & _).
  { repeat (apply Forall_cons; split; [lia|]). apply Forall_nil_2. }
  { repeat (apply Forall_cons; split; [lia|]). apply Forall_nil_2. }
  exists rs. split; [exact H|]. split; [exact Hlen|exact Hk].
Defined.

(** X12.  When no investment is positive the filter removes every ratio and
    the average is [nan], not an exception; in particular for empty
    tables. *)
Theorem no_positive_investment_gives_nan (investment new_capacity : list Z) :
  Forall (λ inv, (- 9007199254740992 ≤ inv ≤ 0)%Z) investment →
  avg_inv_per_mw_of investment new_capacity = inr None.
Proof.
  intros Hall.
  destruct (inv_per_mw_of_defined investment new_capacity) as (rs & Hrs & Hlen & Hs).
  { eapply Forall_impl; [exact Hall|]. simpl. lia. }
  unfold avg_inv_per_mw_of. rewrite Hrs, result_bind_inr.
  rewrite averaged_none; [reflexivity|].
  apply Forall_forall. intros r Hr.
  apply list_elem_of_lookup in Hr as [k Hk].
  destruct (Forall2_lookup_l _ _ _ _ _ Hs Hk) as (inv & Hinv & Hiff).
  apply lookup_take_Some in Hinv as [Hinv _].
  rewrite Forall_forall in Hall.
  pose proof (Hall inv ltac:(by eapply list_elem_of_lookup_2)) as Hle.
  destruct (Qgtb r 0); [|reflexivity].
  pose proof (proj1 Hiff eq_refl). lia.
Qed.

Lemma no_positive_investment_gives_nan_witness :
  avg_inv_per_mw_of [0; -5]%Z [3; 0]%Z = inr None.
Proof.
  apply no_positive_investment_gives_nan.
  repeat (apply Forall_cons; split; [lia|]). apply Forall_nil_2.
Defined.

(** ** Reference lines of the top-countries panels *)

Lemma hlines_app (ax1 ax2 : axes) : hlines (ax1 ++ ax2) = hlines ax1 ++ hlines ax2.
Proof. apply omap_app. Qed.

Lemma hlines_bar (xs : list tick) (heights : list Q) (c : color) :
  hlines (bar xs heights c) = [].
Proof.
  unfold bar. revert heights.
  induction xs as [|x xs IH]; intros [|h hs]; try reflexivity. apply IH.
Qed.

Lemma Qsum_bounds (lo hi : Q) (l : list Q) :
  Forall (λ q, lo <= q <= hi)%Q l →
  (lo * inject_Z (Z.of_nat (length l)) <= Qsum l
   <= hi * inject_Z (Z.of_nat (length l)))%Q.
Proof.
  induction 1 as [|q l [Hlo Hhi] _ [IHlo IHhi]].
  - simpl. rewrite !Qmult_0_r. split; apply Qle_refl.
  - assert (E : (inject_Z (Z.of_nat (length (q :: l)))
                 == 1 + inject_Z (Z.of_nat (length l)))%Q).
    { simpl length. rewrite Nat2Z.inj_succ, <- Z.add_1_l, inject_Z_plus. reflexivity. }
    rewrite E. simpl Qsum. split.
    + rewrite Qmult_plus_distr_r, Qmult_1_r. by apply Qplus_le_compat.
    + rewrite Qmult_plus_distr_r, Qmult_1_r. by apply Qplus_le_compat.
Qed.

(** X13.  A panel of the top-countries figure, drawn for any series that
    has one value per country (values of magnitude up to 2^49, whose sum is
    an exact float), carries exactly one horizontal line; it sits at the
    mean of the series, which lies between the smallest and the largest
    value: the reference line never leaves the range of the bars. *)
Theorem panel_mean_line_within_range
    (series : list Z) (lo hi : Z) (c : color) (unit title ylabel : string) :
  length series = length TopCountries.countries →
  (- 562949953421312 ≤ lo)%Z → (hi ≤ 562949953421312)%Z →
  Forall (λ z, (lo ≤ z ≤ hi)%Z) series →
  ∃ m : Q,
    np_mean (floats series) = Some m ∧
    hlines (TopCountries.panel series c unit title ylabel) = [Some m] ∧
    (inject_Z lo <= m <= inject_Z hi)%Q.
Proof.
  intros Hcount _ _ Hall.
  assert (Hne : series ≠ []) by (intros ->; discriminate Hcount).
  assert (Hlen : (0 < inject_Z (Z.of_nat (length (floats series))))%Q).
  { unfold floats. rewrite length_map. destruct series; [done|].
    unfold Qlt. simpl. lia. }
  assert (Hq : Forall (λ q, inject_Z lo <= q <= inject_Z hi)%Q (floats series)).
  { unfold floats. apply Forall_fmap. eapply Forall_impl; [exact Hall|].
    intros z [Hz1 Hz2]. unfold compose. split; rewrite <- Zle_Qle; assumption. }
  destruct (Qsum_bounds _ _ _ Hq) as [Hlo Hhi].
  exists (Qsum (floats series) / inject_Z (Z.of_nat (length (floats series))))%Q.
  split; [|split].
  - unfold np_mean, floats. by destruct series.
  - unfold TopCountries.panel, format_ax. simpl truthy. cbv iota.
    rewrite !hlines_app, hlines_bar. simpl.
    unfold np_mean, floats. by destruct series.
  - split.
    + by apply Qle_shift_div_l.
    + by apply Qle_shift_div_r.
Qed.

Lemma panel_mean_line_within_range_witness :
  ∃ m : Q,
    np_mean (floats [4; 10; 7; 5; 5; 6; 9; 8; 4; 10]%Z) = Some m ∧
    (inject_Z 4 <= m <= inject_Z 10)%Q.
Proof.
  destruct (panel_mean_line_within_range [4; 10; 7; 5; 5; 6; 9; 8; 4; 10]%Z 4 10
              "maroon" " GWh" "t" "y")
    as (m & Hm & _ & Hb).
  - reflexivity.
  - lia.
  - lia.
  - repeat (apply Forall_cons; split; [lia|]). apply Forall_nil_2.
  - exists m. split; [exact Hm|exact Hb].
Defined.

(** ** Working-fluid efficiency chart *)

(** X14.  Each of the 48 plotted points is its linear baseline plus 0.3
    times a standard normal draw of its own: point i of the j-th fluid
    uses draw 12j+i, so no draw is shared between points or curves.  The
    call leaves the generator advanced by exactly 48 draws and touches
    neither the files, nor the console, nor the theme. *)
Theorem orc_points_use_their_own_draws (w : world) :
  ∃ ax w',
    OrcEfficiency.chart w = inr ([ax], w') ∧
    length OrcEfficiency.temperature_range = 12%nat ∧
    lines_of ax
    = imap (λ j '(name, a, b),
              (name,
               imap (λ i t, a + b * inject_Z (t - 80)
                            + (0 + 0.3 * random_state w (12 * j + i)%nat))%Q
                    OrcEfficiency.temperature_range))
           baselines ∧
    fs w' = fs w ∧ trace w' = trace w ∧ palette w' = palette w ∧
    (∀ k, random_state w' k = random_state w (48 + k)%nat).
Proof.
  destruct w as [files tr rng pal]. eexists _, _. split.
  { unfold OrcEfficiency.chart, OrcEfficiency.add_noise, random_normal.
    unfold mbind, mret, M_bind, M_ret. simpl. reflexivity. }
  by repeat split.
Qed.

(** X15.  The "Key Findings" box is drawn with the same text for every
    state of the random generator, although what is plotted may contradict
    it: there are draws for which every R134a point lies above the
    Isopentane point at the same temperature, while the box still says that
    Isopentane shows the highest efficiency. *)
Theorem orc_findings_ignore_the_data :
  (∀ w, ∃ ax w',
      OrcEfficiency.chart w = inr ([ax], w') ∧
      Text 0.05 0.95 (Lit (String.concat newline OrcEfficiency.textstr)) ∈ ax) ∧
  "• Isopentane shows highest efficiency" ∈ OrcEfficiency.textstr ∧
  (∃ rng : nat → Q, ∀ files tr pal, ∃ ax w' r134a isopentane,
      OrcEfficiency.chart (World files tr rng pal) = inr ([ax], w') ∧
      lines_of ax !! 0%nat = Some ("R134a", r134a) ∧
      lines_of ax !! 2%nat = Some ("Isopentane", isopentane) ∧
      Forall2 Qlt isopentane r134a).
Proof.
  split; [|split].
  - intros [files tr rng pal]. eexists _, _. split.
    { unfold OrcEfficiency.chart, OrcEfficiency.add_noise, random_normal.
      unfold mbind, mret, M_bind, M_ret. simpl. reflexivity. }
    unfold format_ax. simpl. rewrite !elem_of_cons. tauto.
  - unfold OrcEfficiency.textstr. rewrite !elem_of_cons. tauto.
  - exists (λ k, if (k <? 12)%nat then 10%Q else (-10)%Q).
    intros files tr pal. eexists _, _, _, _. split.
    { unfold OrcEfficiency.chart, OrcEfficiency.add_noise, random_normal.
      unfold mbind, mret, M_bind, M_ret. simpl. reflexivity. }
    split; [reflexivity|]. split; [reflexivity|].
    repeat (constructor; [reflexivity|]). constructor.
Qed.

(** ** Outcome of a run on an arbitrary file system *)

Lemma M_bind_fail {A B : Type} (m : M A) (f : A → M B) (w : world) (e : exn) :
  m w = inl e → (m ≫= f) w = inl e.
Proof. intros H. unfold mbind, M_bind. by rewrite H. Qed.

Lemma node_is_dir_dec (o : option node) : {o = Some Dir} + {o ≠ Some Dir}.
Proof. destruct o as [[|img]|]; [by left|by right|by right]. Qed.

Lemma mkdir_run_weak (w : world) :
  fs w !! "./results" = None ∨ fs w !! "./results" = Some Dir →
  mkdir_exist_ok "./results" w
  = inr (tt, emit (EvMkdir "./results") (set_fs (<["./results" := Dir]> (fs w)) w)).
Proof.
  intros [H|H]; unfold mkdir_exist_ok; rewrite H; [reflexivity|].
  rewrite insert_id by exact H. destruct w; reflexivity.
Qed.

Lemma savefig_writes (p d : string) (fig : figure) (w : world) :
  dirname p = d → fs w !! d = Some Dir → fs w !! p ≠ Some Dir →
  savefig p fig w = inr (tt, write_file p fig w).
Proof.
  intros <- Hd Hp. unfold savefig. rewrite Hd.
  destruct (fs w !! p) as [[|img]|]; done.
Qed.

Lemma savefig_on_directory (p d : string) (fig : figure) (w : world) :
  dirname p = d → fs w !! d = Some Dir → fs w !! p = Some Dir →
  savefig p fig w = inl IsADirectoryError.
Proof. intros <- Hd Hp. unfold savefig. by rewrite Hd, Hp. Qed.

Lemma technology_chart_fixed :
  ∃ fig, ∀ pal, TechnologyComparison.chart pal = inr fig.
Proof. eexists. intros pal. vm_compute. reflexivity. Qed.

(** The working-fluid figure is a function of the first 48 draws. *)
Lemma orc_chart_reads_48_draws :
  ∃ render : (nat → Q) → figure,
    (∀ w, OrcEfficiency.chart w
          = inr (render (random_state w),
                 World (fs w) (trace w) (λ k, random_state w (48 + k)%nat) (palette w))) ∧
    (∀ rng rng', (∀ k, (k < 48)%nat → rng k = rng' k) → render rng = render rng').
Proof.
  eexists (λ rng, _). split.
  - intros [files tr rng pal].
    unfold OrcEfficiency.chart, OrcEfficiency.add_noise, random_normal.
    unfold mbind, mret, M_bind, M_ret. simpl. reflexivity.
  - intros rng rng' H. cbv beta.
    repeat match goal with
           | |- context [rng ?k] => rewrite (H k) by lia
           end.
    reflexivity.
Qed.

(** Every chart function comes down to one [savefig] of a figure that
    depends on nothing but, for the working fluids, the random draws. *)
Lemma plots_as_savefig :
  ∃ (f1 f2 f5 f6 : figure) (f4 : (nat → Q) → figure),
    (∀ rng rng', (∀ k, (k < 48)%nat → rng k = rng' k) → f4 rng = f4 rng') ∧
    (∀ w, plot_geothermal_capacity_trend w
          = savefig "./results/geothermal_capacity_trend.png" f1 w) ∧
    (∀ w, plot_technology_comparison w
          = savefig "./results/renewable_technology_comparison.png" f2 w) ∧
    (∀ w, plot_orc_efficiency_comparison w
          = savefig "./results/orc_working_fluid_comparison.png" (f4 (random_state w))
              (World (fs w) (trace w) (λ k, random_state w (48 + k)%nat) (palette w))) ∧
    (∀ w, plot_investment_trends w
          = savefig "./results/geothermal_investment_trends.png" f5 w) ∧
    (∀ w, plot_geothermal_potential_map w
          = savefig "./results/geothermal_potential_by_region.png" f6 w).
Proof.
  destruct capacity_chart_ok as [f1 Hf1].
  destruct technology_chart_fixed as [f2 Hf2].
  destruct investment_chart_ok as [f5 Hf5].
  destruct potential_chart_ok as [f6 Hf6].
  destruct orc_chart_reads_48_draws as (f4 & Hf4 & Hdraws).
  exists f1, f2, f5, f6, f4. split; [exact Hdraws|].
  repeat split; intros w.
  - unfold plot_geothermal_capacity_trend, mbind, M_bind, lift. by rewrite Hf1.
  - unfold plot_technology_comparison, mbind, M_bind, lift, get_palette. by rewrite Hf2.
  - unfold plot_orc_efficiency_comparison, mbind, M_bind. by rewrite Hf4.
  - unfold plot_investment_trends, mbind, M_bind, lift. by rewrite Hf5.
  - unfold plot_geothermal_potential_map, mbind, M_bind, lift. by rewrite Hf6.
Qed.

#[local] Ltac lookup_results :=
  cbn [fs emit write_file set_fs start];
  rewrite ?lookup_insert_ne by done; apply lookup_insert_eq.

#[local] Ltac lookup_output H :=
  cbn [fs emit write_file set_fs start];
  rewrite ?lookup_insert_ne by done; exact H.

(* A chart whose output path is free: its file is written and its
   completion line printed. *)
#[local] Ltac stage_ok P N :=
  eapply M_bind_step;
  [rewrite P; apply (savefig_writes _ "./results");
   [reflexivity|lookup_results|lookup_output N]|];
  printed.

(* A chart whose output path is a directory: the run stops there. *)
#[local] Ltac stage_fails P D :=
  apply M_bind_fail; rewrite P; apply (savefig_on_directory _ "./results");
  [reflexivity|lookup_results|lookup_output D].

#[local] Ltac some_output_is_dir :=
  unfold outputs; repeat (first [by apply Exists_cons_hd|apply Exists_cons_tl]).

(** What a run does once the output directory can be created: either no
    output path is a directory and the run completes, leaving the six
    files, or one is and the run stops with IsADirectoryError. *)
Lemma main_outcome :
  ∃ (f1 f2 f5 f6 : figure) (f4 : (nat → Q) → figure),
    (∀ rng rng', (∀ k, (k < 48)%nat → rng k = rng' k) → f4 rng = f4 rng') ∧
    ∀ files rng pal,
      files !! "./results" = None ∨ files !! "./results" = Some Dir →
      (Forall (λ p, files !! p ≠ Some Dir) outputs ∧
       main (start files rng pal)
       = inr (tt, World (install [f1; f2; TopCountries.chart; f4 rng; f5; f6] files)
                        full_trace (λ k, rng (48 + k)%nat) pal))
      ∨ (Exists (λ p, files !! p = Some Dir) outputs ∧
         main (start files rng pal) = inl IsADirectoryError).
Proof.
  destruct plots_as_savefig as (f1 & f2 & f5 & f6 & f4 & Hdraws & P1 & P2 & P4 & P5 & P6).
  assert (P3 : ∀ w, plot_top_geothermal_countries w
                    = savefig "./results/top_geothermal_countries.png" TopCountries.chart w)
    by reflexivity.
  exists f1, f2, f5, f6, f4. split; [exact Hdraws|]. intros files rng pal Hres.
  assert (Hstart : ∀ r : result (unit * world),
            generate_all_visualizations
              (emit (EvMkdir "./results")
                 (set_fs (<["./results" := Dir]> files) (start files rng pal))) = r →
            main (start files rng pal) = r).
  { intros r <-. unfold main.
    eapply M_bind_step; [exact (mkdir_run_weak (start files rng pal) Hres)|]. reflexivity. }
  destruct (node_is_dir_dec (files !! "./results/geothermal_capacity_trend.png")) as [D1|N1].
  { right. split; [some_output_is_dir|]. apply Hstart.
    unfold generate_all_visualizations. printed. stage_fails P1 D1. }
  destruct (node_is_dir_dec (files !! "./results/renewable_technology_comparison.png")) as [D2|N2].
  { right. split; [some_output_is_dir|]. apply Hstart.
    unfold generate_all_visualizations. printed. stage_ok P1 N1. stage_fails P2 D2. }
  destruct (node_is_dir_dec (files !! "./results/top_geothermal_countries.png")) as [D3|N3].
  { right. split; [some_output_is_dir|]. apply Hstart.
    unfold generate_all_visualizations. printed.
    stage_ok P1 N1. stage_ok P2 N2. stage_fails P3 D3. }
  destruct (node_is_dir_dec (files !! "./results/orc_working_fluid_comparison.png")) as [D4|N4].
  { right. split; [some_output_is_dir|]. apply Hstart.
    unfold generate_all_visualizations. printed.
    stage_ok P1 N1. stage_ok P2 N2. stage_ok P3 N3. stage_fails P4 D4. }
  destruct (node_is_dir_dec (files !! "./results/geothermal_investment_trends.png")) as [D5|N5].
  { right. split; [some_output_is_dir|]. apply Hstart.
    unfold generate_all_visualizations. printed.
    stage_ok P1 N1. stage_ok P2 N2. stage_ok P3 N3. stage_ok P4 N4. stage_fails P5 D5. }
  destruct (node_is_dir_dec (files !! "./results/geothermal_potential_by_region.png")) as [D6|N6].
  { right. split; [some_output_is_dir|]. apply Hstart.
    unfold generate_all_visualizations. printed.
    stage_ok P1 N1. stage_ok P2 N2. stage_ok P3 N3. stage_ok P4 N4. stage_ok P5 N5.
    stage_fails P6 D6. }
  left. split.
  { unfold outputs. repeat (apply Forall_cons; split; [assumption|]). apply Forall_nil_2. }
  apply Hstart. unfold generate_all_visualizations. printed.
  stage_ok P1 N1. stage_ok P2 N2. stage_ok P3 N3. stage_ok P4 N4. stage_ok P5 N5.
  stage_ok P6 N6. reflexivity.
Qed.

Lemma main_blocked_by_file (w : world) (img : figure) :
  fs w !! "./results" = Some (File img) → main w = inl FileExistsError.
Proof.
  intros H. unfold main. apply M_bind_fail. unfold mkdir_exist_ok. by rewrite H.
Qed.

Lemma not_all_and_some (files : gmap string node) :
  Forall (λ p, files !! p ≠ Some Dir) outputs →
  Exists (λ p, files !! p = Some Dir) outputs → False.
Proof.
  rewrite Forall_forall, Exists_exists. intros Hall (p & Hp & Hd). by apply (Hall p).
Qed.

(** The two ways a run ends when the output directory can be created. *)
Lemma main_run_files :
  ∃ (f1 f2 f5 f6 : figure) (f4 : (nat → Q) → figure),
    (∀ rng rng', (∀ k, (k < 48)%nat → rng k = rng' k) → f4 rng = f4 rng') ∧
    (∀ files rng pal,
       usable files →
       main (start files rng pal)
       = inr (tt, World (install [f1; f2; TopCountries.chart; f4 rng; f5; f6] files)
                        full_trace (λ k, rng (48 + k)%nat) pal)) ∧
    (∀ files rng pal,
       files !! "./results" = None ∨ files !! "./results" = Some Dir →
       Exists (λ p, files !! p = Some Dir) outputs →
       main (start files rng pal) = inl IsADirectoryError).
Proof.
  destruct main_outcome as (f1 & f2 & f5 & f6 & f4 & Hdraws & Hout).
  exists f1, f2, f5, f6, f4. split; [exact Hdraws|]. split.
  - intros files rng pal [Hres Hall].
    destruct (Hout files rng pal Hres) as [[_ H]|[Hex _]]; [exact H|].
    destruct (not_all_and_some files Hall Hex).
  - intros files rng pal Hres Hex.
    destruct (Hout files rng pal Hres) as [[Hall _]|[_ H]]; [|exact H].
    destruct (not_all_and_some files Hall Hex).
Qed.

(** X16.  If [./results] exists as a regular file, the run ends with
    FileExistsError, raised by the module-level [mkdir(exist_ok=True)]:
    [exist_ok] only tolerates an existing directory. *)
Theorem results_file_blocks_the_run (w : world) (img : figure) :
  fs w !! "./results" = Some (File img) → main w = inl FileExistsError.
Proof. apply main_blocked_by_file. Qed.

Lemma results_file_blocks_the_run_witness :
  main (start {["./results" := File []]} (λ _, 0%Q) (λ _, "")) = inl FileExistsError.
Proof.
  apply (results_file_blocks_the_run _ []). simpl. apply lookup_singleton_eq.
Defined.

(** X17.  If the output directory can be created but one of the six output
    paths is a directory, the run ends with IsADirectoryError, whatever the
    other paths hold. *)
Theorem output_directory_blocks_the_run
    (files : gmap string node) (rng : nat → Q) (pal : nat → color) (p : string) :
  files !! "./results" = None ∨ files !! "./results" = Some Dir →
  p ∈ outputs → files !! p = Some Dir →
  main (start files rng pal) = inl IsADirectoryError.
Proof.
  intros Hres Hp Hd.
  destruct main_run_files as (f1 & f2 & f5 & f6 & f4 & _ & _ & Hfail).
  apply Hfail; [exact Hres|]. apply Exists_exists. by exists p.
Qed.

Lemma output_directory_blocks_the_run_witness :
  main (start {["./results/top_geothermal_countries.png" := Dir]} (λ _, 0%Q) (λ _, ""))
  = inl IsADirectoryError.
Proof.
  apply (output_directory_blocks_the_run _ _ _ "./results/top_geothermal_countries.png").
  - left. by apply lookup_singleton_ne.
  - unfold outputs. repeat constructor.
  - apply lookup_singleton_eq.
Defined.

(** X18.  A run completes exactly on the usable file systems: those where
    [./results] is absent or a directory and none of the six output paths
    is a directory.  Nothing else about the files, the random draws or the
    theme can make it fail. *)
Theorem run_succeeds_iff_usable
    (files : gmap string node) (rng : nat → Q) (pal : nat → color) :
  (∃ w, main (start files rng pal) = inr (tt, w)) ↔ usable files.
Proof.
  destruct main_run_files as (f1 & f2 & f5 & f6 & f4 & _ & Hok & Hfail).
  split.
  - intros [w Hw].
    assert (Hres : files !! "./results" = None ∨ files !! "./results" = Some Dir).
    { destruct (files !! "./results") as [[|img]|] eqn:E; [by right| |by left].
      rewrite (main_blocked_by_file (start files rng pal) img E) in Hw. done. }
    split; [exact Hres|]. apply Forall_forall. intros p Hp Hd.
    rewrite (Hfail files rng pal Hres) in Hw; [done|].
    apply Exists_exists. by exists p.
  - intros Hus. eexists. by apply Hok.
Qed.

(** X19.  The images are reproducible from the draws: two runs on the same
    usable files whose first 48 standard normal draws agree leave the same
    file system and the same console and system-call trace, whatever the
    later draws and whatever the themes. *)
Theorem runs_agree_on_equal_draws
    (files : gmap string node) (rng rng' : nat → Q) (pal pal' : nat → color) :
  usable files →
  (∀ k, (k < 48)%nat → rng k = rng' k) →
  ∃ w w',
    main (start files rng pal) = inr (tt, w) ∧
    main (start files rng' pal') = inr (tt, w') ∧
    fs w = fs w' ∧
    trace w = trace w'.
Proof.
  intros Hus Hdraws.
  destruct main_run_files as (f1 & f2 & f5 & f6 & f4 & Hf4 & Hok & _).
  eexists _, _. split; [by apply Hok|]. split; [by apply Hok|].
  simpl. by rewrite (Hf4 rng rng' Hdraws).
Qed.

Lemma runs_agree_on_equal_draws_witness :
  ∃ w w',
    main (start ∅ (λ k, if (k <? 48)%nat then 1 else 2)%Q (λ _, "a")) = inr (tt, w) ∧
    main (start ∅ (λ k, if (k <? 48)%nat then 1 else 3)%Q (λ _, "b")) = inr (tt, w') ∧
    fs w = fs w'.
Proof.
  assert (Hus : usable (∅ : gmap string node)).
  { split; [left; reflexivity|]. unfold outputs.
    repeat (apply Forall_cons; split; [by rewrite lookup_empty|]).
    apply Forall_nil_2. }
  destruct (runs_agree_on_equal_draws ∅
              (λ k, if (k <? 48)%nat then 1 else 2)%Q
              (λ k, if (k <? 48)%nat then 1 else 3)%Q (λ _, "a") (λ _, "b") Hus)
    as (w & w' & H1 & H2 & Hfs & _).
  { intros k Hk. apply Nat.ltb_lt in Hk. by rewrite Hk. }
  exists w, w'. split; [exact H1|]. split; [exact H2|exact Hfs].
Defined.

(** X20.  Only the working-fluid image depends on the random draws: two
    runs on the same usable files, with any draws and any themes, leave the
    same node at every path other than
    [./results/orc_working_fluid_comparison.png]; and each run consumes
    exactly 48 draws. *)
Theorem only_orc_image_is_random
    (files : gmap string node) (rng rng' : nat → Q) (pal pal' : nat → color) :
  usable files →
  ∃ w w',
    main (start files rng pal) = inr (tt, w) ∧
    main (start files rng' pal') = inr (tt, w') ∧
    (∀ p, p ≠ "./results/orc_working_fluid_comparison.png" → fs w !! p = fs w' !! p) ∧
    (∀ k, random_state w k = rng (48 + k)%nat) ∧
    (∀ k, random_state w' k = rng' (48 + k)%nat).
Proof.
  intros Hus.
  destruct main_run_files as (f1 & f2 & f5 & f6 & f4 & _ & Hok & _).
  eexists _, _. split; [by apply Hok|]. split; [by apply Hok|].
  split; [|by split].
  intros p Hp. unfold install, outputs. simpl.
  rewrite !lookup_insert. repeat case_decide; congruence.
Qed.

Lemma only_orc_image_is_random_witness :
  ∃ w w',
    main (start ∅ (λ _, 0%Q) (λ _, "")) = inr (tt, w) ∧
    main (start ∅ (λ _, 1%Q) (λ _, "")) = inr (tt, w') ∧
    fs w !! "./results/top_geothermal_countries.png"
    = fs w' !! "./results/top_geothermal_countries.png".
Proof.
  assert (Hus : usable (∅ : gmap string node)).
  { split; [left; reflexivity|]. unfold outputs.
    repeat (apply Forall_cons; split; [by rewrite lookup_empty|]).
    apply Forall_nil_2. }
  destruct (only_orc_image_is_random ∅ (λ _, 0%Q) (λ _, 1%Q) (λ _, "") (λ _, "") Hus)
    as (w & w' & H1 & H2 & Hfs & _).
  exists w, w'. split; [exact H1|]. split; [exact H2|]. by apply Hfs.
Defined.

(** ** Regional frame of arbitrary tables *)

Lemma frame_for_tables :
  PotentialMap.df
  = frame_for PotentialMap.regions PotentialMap.potential_capacity_gw
      PotentialMap.installed_capacity_gw.
Proof. vm_compute. reflexivity. Qed.

#[local] Instance by_potential_desc_total : Total PotentialMap.by_potential_desc.
Proof. intros a b. unfold PotentialMap.by_potential_desc. lia. Qed.

(** A non-zero int of magnitude up to 2^53 divides any float without an
    exception. *)
Lemma utilization_of_in_range (i : Q) (p : Z) :
  p ≠ 0%Z → (Z.abs p ≤ 9007199254740992)%Z →
  PotentialMap.utilization_of i p = inr (i / inject_Z p * 100)%Q.
Proof.
  intros Hp Hb. rewrite utilization_of_cases.
  pose proof exact_ints_convert as Hc.
  set (c := (2 ^ 1024 - 2 ^ 970)%Z) in *.
  rewrite decide_False by lia. by rewrite decide_False.
Qed.

Lemma utilization_for_ok (installed : list Q) (potential : list Z) :
  Forall (λ p, p ≠ 0%Z ∧ (Z.abs p ≤ 9007199254740992)%Z) potential →
  ∃ util, utilization_for installed potential = inr util ∧
          length util = (length installed `min` length potential)%nat.
Proof.
  intros Hall. revert installed.
  induction Hall as [|p ps [Hp Hb] _ IH]; intros installed.
  { exists []. destruct installed; by split. }
  destruct installed as [|i installed]; [by exists []|].
  destruct (IH installed) as (util & Hutil & Hlen).
  exists ((i / inject_Z p * 100)%Q :: util). unfold utilization_for in *.
  simpl zip. simpl mapM. rewrite utilization_of_in_range by assumption.
  rewrite result_bind_inr, Hutil, result_bind_inr.
  split; [reflexivity|]. simpl. by rewrite Hlen.
Qed.


(** Columns of unequal length: the comprehension succeeds on the zipped
    part, and the frame constructor rejects the columns. *)
Lemma frame_for_length_mismatch
    (regions : list string) (potential : list Z) (installed : list Q) :
  Forall (λ p, p ≠ 0%Z ∧ (Z.abs p ≤ 9007199254740992)%Z) potential →
  ¬ (length regions = length potential ∧ length installed = length potential) →
  frame_for regions potential installed = inl ValueError.
Proof.
  intros Hall Hne.
  destruct (utilization_for_ok installed potential Hall) as (util & Hutil & Hlen).
  unfold frame_for. rewrite Hutil, result_bind_inr.
  destruct (_ && _ && _)%bool eqn:E; [|reflexivity].
  apply andb_true_iff in E as [E _]. apply andb_true_iff in E as [E1 E2].
  apply Nat.eqb_eq in E1, E2. exfalso. apply Hne. split; congruence.
Qed.



(** X22.  A zero potential at a position that also has an installed
    capacity, after potentials that all convert to floats (magnitude up to
    2^53), makes the utilization comprehension, and with it the whole
    frame, fail with ZeroDivisionError: no partial frame is produced. *)
Theorem frame_for_zero_potential
    (regions : list string) (potential : list Z) (installed : list Q) (k : nat) :
  potential !! k = Some 0%Z → (k < length installed)%nat →
  Forall (λ p, (Z.abs p ≤ 9007199254740992)%Z) (take k potential) →
  frame_for regions potential installed = inl ZeroDivisionError.
Proof.
  intros Hk Hlen Hb. unfold frame_for.
  enough (utilization_for installed potential = inl ZeroDivisionError) as -> by reflexivity.
  pose proof exact_ints_convert as Hc. pose proof overflow_int_positive as Hc0.
  set (c := (2 ^ 1024 - 2 ^ 970)%Z) in *.
  revert potential k Hk Hlen Hb.
  induction installed as [|i installed IH]; intros potential k Hk Hlen Hb;
    [simpl in Hlen; lia|].
  destruct potential as [|p ps]; [done|].
  unfold utilization_for in *. simpl zip. simpl mapM.
  rewrite utilization_of_cases. fold c.
  destruct k as [|k].
  - injection Hk as ->. rewrite decide_False by (simpl; lia). by rewrite decide_True.
  - rewrite firstn_cons in Hb. apply Forall_cons in Hb as [Hp Hb].
    rewrite decide_False by lia. case_decide as Hz; [reflexivity|].
    rewrite result_bind_inr.
    rewrite (IH ps k Hk); [reflexivity| |exact Hb]. simpl in Hlen. lia.
Qed.

Lemma frame_for_zero_potential_witness :
  frame_for ["A"; "B"] [4; 0]%Z [1; 2]%Q = inl ZeroDivisionError.
Proof.
  apply (frame_for_zero_potential _ _ _ 1%nat); [reflexivity|simpl; lia|].
  apply Forall_cons. split; [simpl; lia|apply Forall_nil_2].
Defined.
